(** * Zero-width steganography over a Vigenere cipher

    A shallow embedding of [project/vigenere.py], [project/steganography.py]
    and [utils.validate_key], together with the Python built-ins they call,
    followed by the properties of the transform and codec layer. *)

From Stdlib Require Import ZArith Lia Bool.
From stdpp Require Import gmap list strings.

(** ** Python values and built-ins *)

Module Py.
Local Open Scope Z_scope.

(** A [str] is a sequence of code points, a [bytes] object a sequence of
    integers below 256; both are lists of [Z]. *)
Abbreviation char := Z (only parsing).
Abbreviation str := (list Z) (only parsing).
Abbreviation bytes := (list Z) (only parsing).

(** The messages of the [ValueError]s raised by the repository, and the one
    [int] raises on a literal it cannot read. *)
Inductive message :=
| EmptyKey              (* vigenere.py:48 *)
| NoValidKeyChars       (* vigenere.py:55 *)
| BitCountNotMultipleOf8 (* steganography.py:72 *)
| BadFormat             (* steganography.py:110 *)
| ContainerTooSmall     (* steganography.py:150 *)
| InvalidLiteral        (* int(s, 2) *)
| ByteOutOfRange.       (* bytearray.append *)

Inductive exn :=
| ValueError (m : message)
| UnicodeEncodeError
| UnicodeDecodeError
| OverflowError
| KeyError
| IndexError
| ZeroDivisionError.

(** [UnicodeDecodeError] and [UnicodeEncodeError] derive from [ValueError]. *)
Definition is_ValueError (e : exn) : bool :=
  match e with
  | ValueError _ | UnicodeEncodeError | UnicodeDecodeError => true
  | _ => false
  end.

Inductive result (A : Type) :=
| Ok (a : A)
| Raise (e : exn).
Arguments Ok {A} a.
Arguments Raise {A} e.

#[global] Instance result_ret : MRet result := fun A a => Ok a.
#[global] Instance result_bind : MBind result := fun A B f m =>
  match m with
  | Ok a => f a
  | Raise e => Raise e
  end.

Definition raises {A} (m : result A) : Prop := exists e, m = Raise e.
Definition returns {A} (m : result A) : Prop := exists a, m = Ok a.

(** Characters the code names. *)
Definition SPACE : char := 32.
Definition DIGIT_0 : char := 48.
Definition DIGIT_1 : char := 49.

(** [x > y] on lengths is decided as [y < x]. *)
#[global] Instance nat_gt_dec : RelDecision gt := fun x y => decide (y < x)%nat.

(** [x % y] on integers: floored, [ZeroDivisionError] on a zero divisor. *)
Definition pymod (x y : Z) : result Z :=
  if decide (y = 0) then Raise ZeroDivisionError else Ok (x mod y).

(** [l[i]] on a sequence, negative indices counted from the end. *)
Definition getitem {A} (l : list A) (i : Z) : result A :=
  let n := Z.of_nat (length l) in
  let j := if decide (i < 0) then i + n else i in
  if decide (0 <= j < n) then
    match l !! Z.to_nat j with
    | Some x => Ok x
    | None => Raise IndexError
    end
  else Raise IndexError.

(** [d[k]] on a dict. *)
Definition dict_getitem (d : gmap Z Z) (k : Z) : result Z :=
  match d !! k with
  | Some v => Ok v
  | None => Raise KeyError
  end.

(** [enumerate(l)] and the comprehension [{ch: i for i, ch in enumerate(l)}]:
    keys are inserted left to right, a later occurrence replaces an earlier. *)
Definition enumerate {A} (l : list A) : list (Z * A) :=
  imap (fun i x => (Z.of_nat i, x)) l.

Definition dict_of_enumerate (l : str) : gmap Z Z :=
  foldl (fun d p => <[p.2 := p.1]> d) ∅ (enumerate l).

Arguments dict_of_enumerate : simpl never.

(** [s[lo:hi]] for bounds that are not negative. *)
Definition slice {A} (s : list A) (lo hi : Z) : list A :=
  take (Z.to_nat (hi - lo)) (drop (Z.to_nat lo) s).

(** [s.count(" ")] *)
Definition count (c : char) (s : str) : nat :=
  length (filter (fun x => x = c) s).

(** *** [str.upper]

    CPython maps every code point on its own (no context rule applies to
    upper-casing) through the full upper-case mapping of the Unicode
    database: the table lists every code point that is not its own
    upper case, with its image (Unicode 14.0, 1525 entries, 102 of which
    expand to two or three code points). *)
Definition upper_table : list (Z * list Z) :=
  [
    (97,[65]); (98,[66]); (99,[67]); (100,[68]); (101,[69]); (102,[70]);
    (103,[71]); (104,[72]); (105,[73]); (106,[74]); (107,[75]); (108,[76]);
    (109,[77]); (110,[78]); (111,[79]); (112,[80]); (113,[81]); (114,[82]);
    (115,[83]); (116,[84]); (117,[85]); (118,[86]); (119,[87]); (120,[88]);
    (121,[89]); (122,[90]); (181,[924]); (223,[83;83]); (224,[192]);
    (225,[193]); (226,[194]); (227,[195]); (228,[196]); (229,[197]);
    (230,[198]); (231,[199]); (232,[200]); (233,[201]); (234,[202]);
    (235,[203]); (236,[204]); (237,[205]); (238,[206]); (239,[207]);
    (240,[208]); (241,[209]); (242,[210]); (243,[211]); (244,[212]);
    (245,[213]); (246,[214]); (248,[216]); (249,[217]); (250,[218]);
    (251,[219]); (252,[220]); (253,[221]); (254,[222]); (255,[376]);
    (257,[256]); (259,[258]); (261,[260]); (263,[262]); (265,[264]);
    (267,[266]); (269,[268]); (271,[270]); (273,[272]); (275,[274]);
    (277,[276]); (279,[278]); (281,[280]); (283,[282]); (285,[284]);
    (287,[286]); (289,[288]); (291,[290]); (293,[292]); (295,[294]);
    (297,[296]); (299,[298]); (301,[300]); (303,[302]); (305,[73]);
    (307,[306]); (309,[308]); (311,[310]); (314,[313]); (316,[315]);
    (318,[317]); (320,[319]); (322,[321]); (324,[323]); (326,[325]);
    (328,[327]); (329,[700;78]); (331,[330]); (333,[332]); (335,[334]);
    (337,[336]); (339,[338]); (341,[340]); (343,[342]); (345,[344]);
    (347,[346]); (349,[348]); (351,[350]); (353,[352]); (355,[354]);
    (357,[356]); (359,[358]); (361,[360]); (363,[362]); (365,[364]);
    (367,[366]); (369,[368]); (371,[370]); (373,[372]); (375,[374]);
    (378,[377]); (380,[379]); (382,[381]); (383,[83]); (384,[579]);
    (387,[386]); (389,[388]); (392,[391]); (396,[395]); (402,[401]);
    (405,[502]); (409,[408]); (410,[573]); (414,[544]); (417,[416]);
    (419,[418]); (421,[420]); (424,[423]); (429,[428]); (432,[431]);
    (436,[435]); (438,[437]); (441,[440]); (445,[444]); (447,[503]);
    (453,[452]); (454,[452]); (456,[455]); (457,[455]); (459,[458]);
    (460,[458]); (462,[461]); (464,[463]); (466,[465]); (468,[467]);
    (470,[469]); (472,[471]); (474,[473]); (476,[475]); (477,[398]);
    (479,[478]); (481,[480]); (483,[482]); (485,[484]); (487,[486]);
    (489,[488]); (491,[490]); (493,[492]); (495,[494]); (496,[74;780]);
    (498,[497]); (499,[497]); (501,[500]); (505,[504]); (507,[506]);
    (509,[508]); (511,[510]); (513,[512]); (515,[514]); (517,[516]);
    (519,[518]); (521,[520]); (523,[522]); (525,[524]); (527,[526]);
    (529,[528]); (531,[530]); (533,[532]); (535,[534]); (537,[536]);
    (539,[538]); (541,[540]); (543,[542]); (547,[546]); (549,[548]);
    (551,[550]); (553,[552]); (555,[554]); (557,[556]); (559,[558]);
    (561,[560]); (563,[562]); (572,[571]); (575,[11390]); (576,[11391]);
    (578,[577]); (583,[582]); (585,[584]); (587,[586]); (589,[588]);
    (591,[590]); (592,[11375]); (593,[11373]); (594,[11376]); (595,[385]);
    (596,[390]); (598,[393]); (599,[394]); (601,[399]); (603,[400]);
    (604,[42923]); (608,[403]); (609,[42924]); (611,[404]); (613,[42893]);
    (614,[42922]); (616,[407]); (617,[406]); (618,[42926]); (619,[11362]);
    (620,[42925]); (623,[412]); (625,[11374]); (626,[413]); (629,[415]);
    (637,[11364]); (640,[422]); (642,[42949]); (643,[425]); (647,[42929]);
    (648,[430]); (649,[580]); (650,[433]); (651,[434]); (652,[581]);
    (658,[439]); (669,[42930]); (670,[42928]); (837,[921]); (881,[880]);
    (883,[882]); (887,[886]); (891,[1021]); (892,[1022]); (893,[1023]);
    (912,[921;776;769]); (940,[902]); (941,[904]); (942,[905]); (943,[906]);
    (944,[933;776;769]); (945,[913]); (946,[914]); (947,[915]); (948,[916]);
    (949,[917]); (950,[918]); (951,[919]); (952,[920]); (953,[921]);
    (954,[922]); (955,[923]); (956,[924]); (957,[925]); (958,[926]);
    (959,[927]); (960,[928]); (961,[929]); (962,[931]); (963,[931]);
    (964,[932]); (965,[933]); (966,[934]); (967,[935]); (968,[936]);
    (969,[937]); (970,[938]); (971,[939]); (972,[908]); (973,[910]);
    (974,[911]); (976,[914]); (977,[920]); (981,[934]); (982,[928]);
    (983,[975]); (985,[984]); (987,[986]); (989,[988]); (991,[990]);
    (993,[992]); (995,[994]); (997,[996]); (999,[998]); (1001,[1000]);
    (1003,[1002]); (1005,[1004]); (1007,[1006]); (1008,[922]); (1009,[929]);
    (1010,[1017]); (1011,[895]); (1013,[917]); (1016,[1015]); (1019,[1018]);
    (1072,[1040]); (1073,[1041]); (1074,[1042]); (1075,[1043]); (1076,[1044]);
    (1077,[1045]); (1078,[1046]); (1079,[1047]); (1080,[1048]); (1081,[1049]);
    (1082,[1050]); (1083,[1051]); (1084,[1052]); (1085,[1053]); (1086,[1054]);
    (1087,[1055]); (1088,[1056]); (1089,[1057]); (1090,[1058]); (1091,[1059]);
    (1092,[1060]); (1093,[1061]); (1094,[1062]); (1095,[1063]); (1096,[1064]);
    (1097,[1065]); (1098,[1066]); (1099,[1067]); (1100,[1068]); (1101,[1069]);
    (1102,[1070]); (1103,[1071]); (1104,[1024]); (1105,[1025]); (1106,[1026]);
    (1107,[1027]); (1108,[1028]); (1109,[1029]); (1110,[1030]); (1111,[1031]);
    (1112,[1032]); (1113,[1033]); (1114,[1034]); (1115,[1035]); (1116,[1036]);
    (1117,[1037]); (1118,[1038]); (1119,[1039]); (1121,[1120]); (1123,[1122]);
    (1125,[1124]); (1127,[1126]); (1129,[1128]); (1131,[1130]); (1133,[1132]);
    (1135,[1134]); (1137,[1136]); (1139,[1138]); (1141,[1140]); (1143,[1142]);
    (1145,[1144]); (1147,[1146]); (1149,[1148]); (1151,[1150]); (1153,[1152]);
    (1163,[1162]); (1165,[1164]); (1167,[1166]); (1169,[1168]); (1171,[1170]);
    (1173,[1172]); (1175,[1174]); (1177,[1176]); (1179,[1178]); (1181,[1180]);
    (1183,[1182]); (1185,[1184]); (1187,[1186]); (1189,[1188]); (1191,[1190]);
    (1193,[1192]); (1195,[1194]); (1197,[1196]); (1199,[1198]); (1201,[1200]);
    (1203,[1202]); (1205,[1204]); (1207,[1206]); (1209,[1208]); (1211,[1210]);
    (1213,[1212]); (1215,[1214]); (1218,[1217]); (1220,[1219]); (1222,[1221]);
    (1224,[1223]); (1226,[1225]); (1228,[1227]); (1230,[1229]); (1231,[1216]);
    (1233,[1232]); (1235,[1234]); (1237,[1236]); (1239,[1238]); (1241,[1240]);
    (1243,[1242]); (1245,[1244]); (1247,[1246]); (1249,[1248]); (1251,[1250]);
    (1253,[1252]); (1255,[1254]); (1257,[1256]); (1259,[1258]); (1261,[1260]);
    (1263,[1262]); (1265,[1264]); (1267,[1266]); (1269,[1268]); (1271,[1270]);
    (1273,[1272]); (1275,[1274]); (1277,[1276]); (1279,[1278]); (1281,[1280]);
    (1283,[1282]); (1285,[1284]); (1287,[1286]); (1289,[1288]); (1291,[1290]);
    (1293,[1292]); (1295,[1294]); (1297,[1296]); (1299,[1298]); (1301,[1300]);
    (1303,[1302]); (1305,[1304]); (1307,[1306]); (1309,[1308]); (1311,[1310]);
    (1313,[1312]); (1315,[1314]); (1317,[1316]); (1319,[1318]); (1321,[1320]);
    (1323,[1322]); (1325,[1324]); (1327,[1326]); (1377,[1329]); (1378,[1330]);
    (1379,[1331]); (1380,[1332]); (1381,[1333]); (1382,[1334]); (1383,[1335]);
    (1384,[1336]); (1385,[1337]); (1386,[1338]); (1387,[1339]); (1388,[1340]);
    (1389,[1341]); (1390,[1342]); (1391,[1343]); (1392,[1344]); (1393,[1345]);
    (1394,[1346]); (1395,[1347]); (1396,[1348]); (1397,[1349]); (1398,[1350]);
    (1399,[1351]); (1400,[1352]); (1401,[1353]); (1402,[1354]); (1403,[1355]);
    (1404,[1356]); (1405,[1357]); (1406,[1358]); (1407,[1359]); (1408,[1360]);
    (1409,[1361]); (1410,[1362]); (1411,[1363]); (1412,[1364]); (1413,[1365]);
    (1414,[1366]); (1415,[1333;1362]); (4304,[7312]); (4305,[7313]);
    (4306,[7314]); (4307,[7315]); (4308,[7316]); (4309,[7317]); (4310,[7318]);
    (4311,[7319]); (4312,[7320]); (4313,[7321]); (4314,[7322]); (4315,[7323]);
    (4316,[7324]); (4317,[7325]); (4318,[7326]); (4319,[7327]); (4320,[7328]);
    (4321,[7329]); (4322,[7330]); (4323,[7331]); (4324,[7332]); (4325,[7333]);
    (4326,[7334]); (4327,[7335]); (4328,[7336]); (4329,[7337]); (4330,[7338]);
    (4331,[7339]); (4332,[7340]); (4333,[7341]); (4334,[7342]); (4335,[7343]);
    (4336,[7344]); (4337,[7345]); (4338,[7346]); (4339,[7347]); (4340,[7348]);
    (4341,[7349]); (4342,[7350]); (4343,[7351]); (4344,[7352]); (4345,[7353]);
    (4346,[7354]); (4349,[7357]); (4350,[7358]); (4351,[7359]); (5112,[5104]);
    (5113,[5105]); (5114,[5106]); (5115,[5107]); (5116,[5108]); (5117,[5109]);
    (7296,[1042]); (7297,[1044]); (7298,[1054]); (7299,[1057]); (7300,[1058]);
    (7301,[1058]); (7302,[1066]); (7303,[1122]); (7304,[42570]);
    (7545,[42877]); (7549,[11363]); (7566,[42950]); (7681,[7680]);
    (7683,[7682]); (7685,[7684]); (7687,[7686]); (7689,[7688]); (7691,[7690]);
    (7693,[7692]); (7695,[7694]); (7697,[7696]); (7699,[7698]); (7701,[7700]);
    (7703,[7702]); (7705,[7704]); (7707,[7706]); (7709,[7708]); (7711,[7710]);
    (7713,[7712]); (7715,[7714]); (7717,[7716]); (7719,[7718]); (7721,[7720]);
    (7723,[7722]); (7725,[7724]); (7727,[7726]); (7729,[7728]); (7731,[7730]);
    (7733,[7732]); (7735,[7734]); (7737,[7736]); (7739,[7738]); (7741,[7740]);
    (7743,[7742]); (7745,[7744]); (7747,[7746]); (7749,[7748]); (7751,[7750]);
    (7753,[7752]); (7755,[7754]); (7757,[7756]); (7759,[7758]); (7761,[7760]);
    (7763,[7762]); (7765,[7764]); (7767,[7766]); (7769,[7768]); (7771,[7770]);
    (7773,[7772]); (7775,[7774]); (7777,[7776]); (7779,[7778]); (7781,[7780]);
    (7783,[7782]); (7785,[7784]); (7787,[7786]); (7789,[7788]); (7791,[7790]);
    (7793,[7792]); (7795,[7794]); (7797,[7796]); (7799,[7798]); (7801,[7800]);
    (7803,[7802]); (7805,[7804]); (7807,[7806]); (7809,[7808]); (7811,[7810]);
    (7813,[7812]); (7815,[7814]); (7817,[7816]); (7819,[7818]); (7821,[7820]);
    (7823,[7822]); (7825,[7824]); (7827,[7826]); (7829,[7828]);
    (7830,[72;817]); (7831,[84;776]); (7832,[87;778]); (7833,[89;778]);
    (7834,[65;702]); (7835,[7776]); (7841,[7840]); (7843,[7842]);
    (7845,[7844]); (7847,[7846]); (7849,[7848]); (7851,[7850]); (7853,[7852]);
    (7855,[7854]); (7857,[7856]); (7859,[7858]); (7861,[7860]); (7863,[7862]);
    (7865,[7864]); (7867,[7866]); (7869,[7868]); (7871,[7870]); (7873,[7872]);
    (7875,[7874]); (7877,[7876]); (7879,[7878]); (7881,[7880]); (7883,[7882]);
    (7885,[7884]); (7887,[7886]); (7889,[7888]); (7891,[7890]); (7893,[7892]);
    (7895,[7894]); (7897,[7896]); (7899,[7898]); (7901,[7900]); (7903,[7902]);
    (7905,[7904]); (7907,[7906]); (7909,[7908]); (7911,[7910]); (7913,[7912]);
    (7915,[7914]); (7917,[7916]); (7919,[7918]); (7921,[7920]); (7923,[7922]);
    (7925,[7924]); (7927,[7926]); (7929,[7928]); (7931,[7930]); (7933,[7932]);
    (7935,[7934]); (7936,[7944]); (7937,[7945]); (7938,[7946]); (7939,[7947]);
    (7940,[7948]); (7941,[7949]); (7942,[7950]); (7943,[7951]); (7952,[7960]);
    (7953,[7961]); (7954,[7962]); (7955,[7963]); (7956,[7964]); (7957,[7965]);
    (7968,[7976]); (7969,[7977]); (7970,[7978]); (7971,[7979]); (7972,[7980]);
    (7973,[7981]); (7974,[7982]); (7975,[7983]); (7984,[7992]); (7985,[7993]);
    (7986,[7994]); (7987,[7995]); (7988,[7996]); (7989,[7997]); (7990,[7998]);
    (7991,[7999]); (8000,[8008]); (8001,[8009]); (8002,[8010]); (8003,[8011]);
    (8004,[8012]); (8005,[8013]); (8016,[933;787]); (8017,[8025]);
    (8018,[933;787;768]); (8019,[8027]); (8020,[933;787;769]); (8021,[8029]);
    (8022,[933;787;834]); (8023,[8031]); (8032,[8040]); (8033,[8041]);
    (8034,[8042]); (8035,[8043]); (8036,[8044]); (8037,[8045]); (8038,[8046]);
    (8039,[8047]); (8048,[8122]); (8049,[8123]); (8050,[8136]); (8051,[8137]);
    (8052,[8138]); (8053,[8139]); (8054,[8154]); (8055,[8155]); (8056,[8184]);
    (8057,[8185]); (8058,[8170]); (8059,[8171]); (8060,[8186]); (8061,[8187]);
    (8064,[7944;921]); (8065,[7945;921]); (8066,[7946;921]);
    (8067,[7947;921]); (8068,[7948;921]); (8069,[7949;921]);
    (8070,[7950;921]); (8071,[7951;921]); (8072,[7944;921]);
    (8073,[7945;921]); (8074,[7946;921]); (8075,[7947;921]);
    (8076,[7948;921]); (8077,[7949;921]); (8078,[7950;921]);
    (8079,[7951;921]); (8080,[7976;921]); (8081,[7977;921]);
    (8082,[7978;921]); (8083,[7979;921]); (8084,[7980;921]);
    (8085,[7981;921]); (8086,[7982;921]); (8087,[7983;921]);
    (8088,[7976;921]); (8089,[7977;921]); (8090,[7978;921]);
    (8091,[7979;921]); (8092,[7980;921]); (8093,[7981;921]);
    (8094,[7982;921]); (8095,[7983;921]); (8096,[8040;921]);
    (8097,[8041;921]); (8098,[8042;921]); (8099,[8043;921]);
    (8100,[8044;921]); (8101,[8045;921]); (8102,[8046;921]);
    (8103,[8047;921]); (8104,[8040;921]); (8105,[8041;921]);
    (8106,[8042;921]); (8107,[8043;921]); (8108,[8044;921]);
    (8109,[8045;921]); (8110,[8046;921]); (8111,[8047;921]); (8112,[8120]);
    (8113,[8121]); (8114,[8122;921]); (8115,[913;921]); (8116,[902;921]);
    (8118,[913;834]); (8119,[913;834;921]); (8124,[913;921]); (8126,[921]);
    (8130,[8138;921]); (8131,[919;921]); (8132,[905;921]); (8134,[919;834]);
    (8135,[919;834;921]); (8140,[919;921]); (8144,[8152]); (8145,[8153]);
    (8146,[921;776;768]); (8147,[921;776;769]); (8150,[921;834]);
    (8151,[921;776;834]); (8160,[8168]); (8161,[8169]); (8162,[933;776;768]);
    (8163,[933;776;769]); (8164,[929;787]); (8165,[8172]); (8166,[933;834]);
    (8167,[933;776;834]); (8178,[8186;921]); (8179,[937;921]);
    (8180,[911;921]); (8182,[937;834]); (8183,[937;834;921]);
    (8188,[937;921]); (8526,[8498]); (8560,[8544]); (8561,[8545]);
    (8562,[8546]); (8563,[8547]); (8564,[8548]); (8565,[8549]); (8566,[8550]);
    (8567,[8551]); (8568,[8552]); (8569,[8553]); (8570,[8554]); (8571,[8555]);
    (8572,[8556]); (8573,[8557]); (8574,[8558]); (8575,[8559]); (8580,[8579]);
    (9424,[9398]); (9425,[9399]); (9426,[9400]); (9427,[9401]); (9428,[9402]);
    (9429,[9403]); (9430,[9404]); (9431,[9405]); (9432,[9406]); (9433,[9407]);
    (9434,[9408]); (9435,[9409]); (9436,[9410]); (9437,[9411]); (9438,[9412]);
    (9439,[9413]); (9440,[9414]); (9441,[9415]); (9442,[9416]); (9443,[9417]);
    (9444,[9418]); (9445,[9419]); (9446,[9420]); (9447,[9421]); (9448,[9422]);
    (9449,[9423]); (11312,[11264]); (11313,[11265]); (11314,[11266]);
    (11315,[11267]); (11316,[11268]); (11317,[11269]); (11318,[11270]);
    (11319,[11271]); (11320,[11272]); (11321,[11273]); (11322,[11274]);
    (11323,[11275]); (11324,[11276]); (11325,[11277]); (11326,[11278]);
    (11327,[11279]); (11328,[11280]); (11329,[11281]); (11330,[11282]);
    (11331,[11283]); (11332,[11284]); (11333,[11285]); (11334,[11286]);
    (11335,[11287]); (11336,[11288]); (11337,[11289]); (11338,[11290]);
    (11339,[11291]); (11340,[11292]); (11341,[11293]); (11342,[11294]);
    (11343,[11295]); (11344,[11296]); (11345,[11297]); (11346,[11298]);
    (11347,[11299]); (11348,[11300]); (11349,[11301]); (11350,[11302]);
    (11351,[11303]); (11352,[11304]); (11353,[11305]); (11354,[11306]);
    (11355,[11307]); (11356,[11308]); (11357,[11309]); (11358,[11310]);
    (11359,[11311]); (11361,[11360]); (11365,[570]); (11366,[574]);
    (11368,[11367]); (11370,[11369]); (11372,[11371]); (11379,[11378]);
    (11382,[11381]); (11393,[11392]); (11395,[11394]); (11397,[11396]);
    (11399,[11398]); (11401,[11400]); (11403,[11402]); (11405,[11404]);
    (11407,[11406]); (11409,[11408]); (11411,[11410]); (11413,[11412]);
    (11415,[11414]); (11417,[11416]); (11419,[11418]); (11421,[11420]);
    (11423,[11422]); (11425,[11424]); (11427,[11426]); (11429,[11428]);
    (11431,[11430]); (11433,[11432]); (11435,[11434]); (11437,[11436]);
    (11439,[11438]); (11441,[11440]); (11443,[11442]); (11445,[11444]);
    (11447,[11446]); (11449,[11448]); (11451,[11450]); (11453,[11452]);
    (11455,[11454]); (11457,[11456]); (11459,[11458]); (11461,[11460]);
    (11463,[11462]); (11465,[11464]); (11467,[11466]); (11469,[11468]);
    (11471,[11470]); (11473,[11472]); (11475,[11474]); (11477,[11476]);
    (11479,[11478]); (11481,[11480]); (11483,[11482]); (11485,[11484]);
    (11487,[11486]); (11489,[11488]); (11491,[11490]); (11500,[11499]);
    (11502,[11501]); (11507,[11506]); (11520,[4256]); (11521,[4257]);
    (11522,[4258]); (11523,[4259]); (11524,[4260]); (11525,[4261]);
    (11526,[4262]); (11527,[4263]); (11528,[4264]); (11529,[4265]);
    (11530,[4266]); (11531,[4267]); (11532,[4268]); (11533,[4269]);
    (11534,[4270]); (11535,[4271]); (11536,[4272]); (11537,[4273]);
    (11538,[4274]); (11539,[4275]); (11540,[4276]); (11541,[4277]);
    (11542,[4278]); (11543,[4279]); (11544,[4280]); (11545,[4281]);
    (11546,[4282]); (11547,[4283]); (11548,[4284]); (11549,[4285]);
    (11550,[4286]); (11551,[4287]); (11552,[4288]); (11553,[4289]);
    (11554,[4290]); (11555,[4291]); (11556,[4292]); (11557,[4293]);
    (11559,[4295]); (11565,[4301]); (42561,[42560]); (42563,[42562]);
    (42565,[42564]); (42567,[42566]); (42569,[42568]); (42571,[42570]);
    (42573,[42572]); (42575,[42574]); (42577,[42576]); (42579,[42578]);
    (42581,[42580]); (42583,[42582]); (42585,[42584]); (42587,[42586]);
    (42589,[42588]); (42591,[42590]); (42593,[42592]); (42595,[42594]);
    (42597,[42596]); (42599,[42598]); (42601,[42600]); (42603,[42602]);
    (42605,[42604]); (42625,[42624]); (42627,[42626]); (42629,[42628]);
    (42631,[42630]); (42633,[42632]); (42635,[42634]); (42637,[42636]);
    (42639,[42638]); (42641,[42640]); (42643,[42642]); (42645,[42644]);
    (42647,[42646]); (42649,[42648]); (42651,[42650]); (42787,[42786]);
    (42789,[42788]); (42791,[42790]); (42793,[42792]); (42795,[42794]);
    (42797,[42796]); (42799,[42798]); (42803,[42802]); (42805,[42804]);
    (42807,[42806]); (42809,[42808]); (42811,[42810]); (42813,[42812]);
    (42815,[42814]); (42817,[42816]); (42819,[42818]); (42821,[42820]);
    (42823,[42822]); (42825,[42824]); (42827,[42826]); (42829,[42828]);
    (42831,[42830]); (42833,[42832]); (42835,[42834]); (42837,[42836]);
    (42839,[42838]); (42841,[42840]); (42843,[42842]); (42845,[42844]);
    (42847,[42846]); (42849,[42848]); (42851,[42850]); (42853,[42852]);
    (42855,[42854]); (42857,[42856]); (42859,[42858]); (42861,[42860]);
    (42863,[42862]); (42874,[42873]); (42876,[42875]); (42879,[42878]);
    (42881,[42880]); (42883,[42882]); (42885,[42884]); (42887,[42886]);
    (42892,[42891]); (42897,[42896]); (42899,[42898]); (42900,[42948]);
    (42903,[42902]); (42905,[42904]); (42907,[42906]); (42909,[42908]);
    (42911,[42910]); (42913,[42912]); (42915,[42914]); (42917,[42916]);
    (42919,[42918]); (42921,[42920]); (42933,[42932]); (42935,[42934]);
    (42937,[42936]); (42939,[42938]); (42941,[42940]); (42943,[42942]);
    (42945,[42944]); (42947,[42946]); (42952,[42951]); (42954,[42953]);
    (42961,[42960]); (42967,[42966]); (42969,[42968]); (42998,[42997]);
    (43859,[42931]); (43888,[5024]); (43889,[5025]); (43890,[5026]);
    (43891,[5027]); (43892,[5028]); (43893,[5029]); (43894,[5030]);
    (43895,[5031]); (43896,[5032]); (43897,[5033]); (43898,[5034]);
    (43899,[5035]); (43900,[5036]); (43901,[5037]); (43902,[5038]);
    (43903,[5039]); (43904,[5040]); (43905,[5041]); (43906,[5042]);
    (43907,[5043]); (43908,[5044]); (43909,[5045]); (43910,[5046]);
    (43911,[5047]); (43912,[5048]); (43913,[5049]); (43914,[5050]);
    (43915,[5051]); (43916,[5052]); (43917,[5053]); (43918,[5054]);
    (43919,[5055]); (43920,[5056]); (43921,[5057]); (43922,[5058]);
    (43923,[5059]); (43924,[5060]); (43925,[5061]); (43926,[5062]);
    (43927,[5063]); (43928,[5064]); (43929,[5065]); (43930,[5066]);
    (43931,[5067]); (43932,[5068]); (43933,[5069]); (43934,[5070]);
    (43935,[5071]); (43936,[5072]); (43937,[5073]); (43938,[5074]);
    (43939,[5075]); (43940,[5076]); (43941,[5077]); (43942,[5078]);
    (43943,[5079]); (43944,[5080]); (43945,[5081]); (43946,[5082]);
    (43947,[5083]); (43948,[5084]); (43949,[5085]); (43950,[5086]);
    (43951,[5087]); (43952,[5088]); (43953,[5089]); (43954,[5090]);
    (43955,[5091]); (43956,[5092]); (43957,[5093]); (43958,[5094]);
    (43959,[5095]); (43960,[5096]); (43961,[5097]); (43962,[5098]);
    (43963,[5099]); (43964,[5100]); (43965,[5101]); (43966,[5102]);
    (43967,[5103]); (64256,[70;70]); (64257,[70;73]); (64258,[70;76]);
    (64259,[70;70;73]); (64260,[70;70;76]); (64261,[83;84]); (64262,[83;84]);
    (64275,[1348;1350]); (64276,[1348;1333]); (64277,[1348;1339]);
    (64278,[1358;1350]); (64279,[1348;1341]); (65345,[65313]);
    (65346,[65314]); (65347,[65315]); (65348,[65316]); (65349,[65317]);
    (65350,[65318]); (65351,[65319]); (65352,[65320]); (65353,[65321]);
    (65354,[65322]); (65355,[65323]); (65356,[65324]); (65357,[65325]);
    (65358,[65326]); (65359,[65327]); (65360,[65328]); (65361,[65329]);
    (65362,[65330]); (65363,[65331]); (65364,[65332]); (65365,[65333]);
    (65366,[65334]); (65367,[65335]); (65368,[65336]); (65369,[65337]);
    (65370,[65338]); (66600,[66560]); (66601,[66561]); (66602,[66562]);
    (66603,[66563]); (66604,[66564]); (66605,[66565]); (66606,[66566]);
    (66607,[66567]); (66608,[66568]); (66609,[66569]); (66610,[66570]);
    (66611,[66571]); (66612,[66572]); (66613,[66573]); (66614,[66574]);
    (66615,[66575]); (66616,[66576]); (66617,[66577]); (66618,[66578]);
    (66619,[66579]); (66620,[66580]); (66621,[66581]); (66622,[66582]);
    (66623,[66583]); (66624,[66584]); (66625,[66585]); (66626,[66586]);
    (66627,[66587]); (66628,[66588]); (66629,[66589]); (66630,[66590]);
    (66631,[66591]); (66632,[66592]); (66633,[66593]); (66634,[66594]);
    (66635,[66595]); (66636,[66596]); (66637,[66597]); (66638,[66598]);
    (66639,[66599]); (66776,[66736]); (66777,[66737]); (66778,[66738]);
    (66779,[66739]); (66780,[66740]); (66781,[66741]); (66782,[66742]);
    (66783,[66743]); (66784,[66744]); (66785,[66745]); (66786,[66746]);
    (66787,[66747]); (66788,[66748]); (66789,[66749]); (66790,[66750]);
    (66791,[66751]); (66792,[66752]); (66793,[66753]); (66794,[66754]);
    (66795,[66755]); (66796,[66756]); (66797,[66757]); (66798,[66758]);
    (66799,[66759]); (66800,[66760]); (66801,[66761]); (66802,[66762]);
    (66803,[66763]); (66804,[66764]); (66805,[66765]); (66806,[66766]);
    (66807,[66767]); (66808,[66768]); (66809,[66769]); (66810,[66770]);
    (66811,[66771]); (66967,[66928]); (66968,[66929]); (66969,[66930]);
    (66970,[66931]); (66971,[66932]); (66972,[66933]); (66973,[66934]);
    (66974,[66935]); (66975,[66936]); (66976,[66937]); (66977,[66938]);
    (66979,[66940]); (66980,[66941]); (66981,[66942]); (66982,[66943]);
    (66983,[66944]); (66984,[66945]); (66985,[66946]); (66986,[66947]);
    (66987,[66948]); (66988,[66949]); (66989,[66950]); (66990,[66951]);
    (66991,[66952]); (66992,[66953]); (66993,[66954]); (66995,[66956]);
    (66996,[66957]); (66997,[66958]); (66998,[66959]); (66999,[66960]);
    (67000,[66961]); (67001,[66962]); (67003,[66964]); (67004,[66965]);
    (68800,[68736]); (68801,[68737]); (68802,[68738]); (68803,[68739]);
    (68804,[68740]); (68805,[68741]); (68806,[68742]); (68807,[68743]);
    (68808,[68744]); (68809,[68745]); (68810,[68746]); (68811,[68747]);
    (68812,[68748]); (68813,[68749]); (68814,[68750]); (68815,[68751]);
    (68816,[68752]); (68817,[68753]); (68818,[68754]); (68819,[68755]);
    (68820,[68756]); (68821,[68757]); (68822,[68758]); (68823,[68759]);
    (68824,[68760]); (68825,[68761]); (68826,[68762]); (68827,[68763]);
    (68828,[68764]); (68829,[68765]); (68830,[68766]); (68831,[68767]);
    (68832,[68768]); (68833,[68769]); (68834,[68770]); (68835,[68771]);
    (68836,[68772]); (68837,[68773]); (68838,[68774]); (68839,[68775]);
    (68840,[68776]); (68841,[68777]); (68842,[68778]); (68843,[68779]);
    (68844,[68780]); (68845,[68781]); (68846,[68782]); (68847,[68783]);
    (68848,[68784]); (68849,[68785]); (68850,[68786]); (71872,[71840]);
    (71873,[71841]); (71874,[71842]); (71875,[71843]); (71876,[71844]);
    (71877,[71845]); (71878,[71846]); (71879,[71847]); (71880,[71848]);
    (71881,[71849]); (71882,[71850]); (71883,[71851]); (71884,[71852]);
    (71885,[71853]); (71886,[71854]); (71887,[71855]); (71888,[71856]);
    (71889,[71857]); (71890,[71858]); (71891,[71859]); (71892,[71860]);
    (71893,[71861]); (71894,[71862]); (71895,[71863]); (71896,[71864]);
    (71897,[71865]); (71898,[71866]); (71899,[71867]); (71900,[71868]);
    (71901,[71869]); (71902,[71870]); (71903,[71871]); (93792,[93760]);
    (93793,[93761]); (93794,[93762]); (93795,[93763]); (93796,[93764]);
    (93797,[93765]); (93798,[93766]); (93799,[93767]); (93800,[93768]);
    (93801,[93769]); (93802,[93770]); (93803,[93771]); (93804,[93772]);
    (93805,[93773]); (93806,[93774]); (93807,[93775]); (93808,[93776]);
    (93809,[93777]); (93810,[93778]); (93811,[93779]); (93812,[93780]);
    (93813,[93781]); (93814,[93782]); (93815,[93783]); (93816,[93784]);
    (93817,[93785]); (93818,[93786]); (93819,[93787]); (93820,[93788]);
    (93821,[93789]); (93822,[93790]); (93823,[93791]); (125218,[125184]);
    (125219,[125185]); (125220,[125186]); (125221,[125187]);
    (125222,[125188]); (125223,[125189]); (125224,[125190]);
    (125225,[125191]); (125226,[125192]); (125227,[125193]);
    (125228,[125194]); (125229,[125195]); (125230,[125196]);
    (125231,[125197]); (125232,[125198]); (125233,[125199]);
    (125234,[125200]); (125235,[125201]); (125236,[125202]);
    (125237,[125203]); (125238,[125204]); (125239,[125205]);
    (125240,[125206]); (125241,[125207]); (125242,[125208]);
    (125243,[125209]); (125244,[125210]); (125245,[125211]);
    (125246,[125212]); (125247,[125213]); (125248,[125214]);
    (125249,[125215]); (125250,[125216]); (125251,[125217])
  ].

Fixpoint assoc (c : Z) (t : list (Z * list Z)) : option (list Z) :=
  match t with
  | [] => None
  | (k, v) :: t' => if decide (k = c) then Some v else assoc c t'
  end.

Definition upper_char (c : char) : str :=
  match assoc c upper_table with
  | Some u => u
  | None => [c]
  end.

Definition upper (s : str) : str := flat_map upper_char s.

(** *** [str.encode("utf-8")] and [bytes.decode("utf-8")]

    The strict codec: surrogates cannot be encoded; overlong forms,
    surrogates, code points above U+10FFFF, stray continuation bytes and
    truncated sequences cannot be decoded. *)
Definition utf8_encode_char (c : char) : result bytes :=
  if decide (c < 0x80) then Ok [c]
  else if decide (c < 0x800) then Ok [0xC0 + c / 64; 0x80 + c mod 64]
  else if decide (0xD800 <= c <= 0xDFFF) then Raise UnicodeEncodeError
  else if decide (c < 0x10000) then
    Ok [0xE0 + c / 4096; 0x80 + (c / 64) mod 64; 0x80 + c mod 64]
  else
    Ok [0xF0 + c / 262144; 0x80 + (c / 4096) mod 64;
        0x80 + (c / 64) mod 64; 0x80 + c mod 64].

Fixpoint utf8_encode (s : str) : result bytes :=
  match s with
  | [] => Ok []
  | c :: s' =>
    b ← utf8_encode_char c;
    bs ← utf8_encode s';
    Ok (b ++ bs)
  end.

Definition is_cont (b : Z) : bool := bool_decide (0x80 <= b <= 0xBF).

Fixpoint utf8_decode (bs : bytes) : result str :=
  match bs with
  | [] => Ok []
  | b0 :: r0 =>
    if decide (b0 < 0x80) then
      s ← utf8_decode r0; Ok (b0 :: s)
    else if decide (0xC2 <= b0 <= 0xDF) then
      match r0 with
      | b1 :: r1 =>
        if is_cont b1 then
          s ← utf8_decode r1; Ok ((b0 - 0xC0) * 64 + (b1 - 0x80) :: s)
        else Raise UnicodeDecodeError
      | _ => Raise UnicodeDecodeError
      end
    else if decide (0xE0 <= b0 <= 0xEF) then
      match r0 with
      | b1 :: b2 :: r2 =>
        let c := (b0 - 0xE0) * 4096 + (b1 - 0x80) * 64 + (b2 - 0x80) in
        if is_cont b1 && is_cont b2 && bool_decide (0x800 <= c)
           && negb (bool_decide (0xD800 <= c <= 0xDFFF)) then
          s ← utf8_decode r2; Ok (c :: s)
        else Raise UnicodeDecodeError
      | _ => Raise UnicodeDecodeError
      end
    else if decide (0xF0 <= b0 <= 0xF4) then
      match r0 with
      | b1 :: b2 :: b3 :: r3 =>
        let c := (b0 - 0xF0) * 262144 + (b1 - 0x80) * 4096
                 + (b2 - 0x80) * 64 + (b3 - 0x80) in
        if is_cont b1 && is_cont b2 && is_cont b3
           && bool_decide (0x10000 <= c <= 0x10FFFF) then
          s ← utf8_decode r3; Ok (c :: s)
        else Raise UnicodeDecodeError
      | _ => Raise UnicodeDecodeError
      end
    else Raise UnicodeDecodeError
  end.

(** *** Integers and bytes *)

(** [n.to_bytes(4, "big")] *)
Definition to_bytes4 (n : Z) : result bytes :=
  if decide (0 <= n < 2 ^ 32) then
    Ok [n / 2 ^ 24; (n / 2 ^ 16) mod 256; (n / 2 ^ 8) mod 256; n mod 256]
  else Raise OverflowError.

(** [int.from_bytes(bs, "big")] *)
Definition from_bytes (bs : bytes) : Z :=
  foldl (fun acc b => acc * 256 + b) 0 bs.

(** [f"{b:08b}"] for a byte [b]: its eight bits, most significant first. *)
Definition format_08b (b : Z) : str :=
  (fun k => if Z.testbit b k then DIGIT_1 else DIGIT_0)
    <$> [7; 6; 5; 4; 3; 2; 1; 0].

(** [int(s, 2)] on a literal of binary digits. The embedding reads the
    literals the bit strings of this program are made of, ['0'] and ['1']
    only; any other character is reported as an invalid literal (CPython
    also reads a sign, blanks, underscores, a [0b] prefix and non-ASCII
    digits, none of which occurs in a bit string), so the statements about
    [int2] and its callers below are about bit strings. *)
Definition bit_digit (c : char) : option Z :=
  if decide (c = DIGIT_0) then Some 0
  else if decide (c = DIGIT_1) then Some 1
  else None.

Fixpoint int2_digits (acc : Z) (s : str) : option Z :=
  match s with
  | [] => Some acc
  | c :: s' =>
    match bit_digit c with
    | Some d => int2_digits (2 * acc + d) s'
    | None => None
    end
  end.

Definition int2 (s : str) : result Z :=
  match s with
  | [] => Raise (ValueError InvalidLiteral)
  | _ =>
    match int2_digits 0 s with
    | Some n => Ok n
    | None => Raise (ValueError InvalidLiteral)
    end
  end.

(** [bytearray.append(v)] *)
Definition bytearray_append (out : bytes) (v : Z) : result bytes :=
  if decide (0 <= v < 256) then Ok (out ++ [v])
  else Raise (ValueError ByteOutOfRange).

(** [range(0, n, 8)] *)
Definition range8 (n : nat) : list nat :=
  (fun k => (8 * k)%nat) <$> seq 0 ((n + 7) `div` 8)%nat.

End Py.

(** ** [project/vigenere.py] *)

Module Vigenere.
Import Py.
Local Open Scope Z_scope.

(** The 71 code points of [LETTERS]: A-Z; the 33 Russian capitals in the
    order of the source (U+0401 after U+0415, U+042C before U+042A);
    then U+0490 U+0404 U+0406 U+040E U+0407 U+00DC U+00D6 U+00C4 U+1E9E
    U+00C5 U+00C6 U+00D8. *)
Definition LETTERS : str :=
  [ 65; 66; 67; 68; 69; 70; 71; 72; 73; 74; 75; 76; 77;
    78; 79; 80; 81; 82; 83; 84; 85; 86; 87; 88; 89; 90;
    0x410; 0x411; 0x412; 0x413; 0x414; 0x415; 0x401; 0x416; 0x417; 0x418;
    0x419; 0x41A; 0x41B; 0x41C; 0x41D; 0x41E; 0x41F; 0x420; 0x421; 0x422;
    0x423; 0x424; 0x425; 0x426; 0x427; 0x428; 0x429; 0x42C; 0x42A; 0x42B;
    0x42D; 0x42E; 0x42F;
    0x490; 0x404; 0x406; 0x40E; 0x407; 0xDC; 0xD6; 0xC4; 0x1E9E; 0xC5;
    0xC6; 0xD8 ].

Definition _prepare_key (key : str) : result (str * gmap Z Z * Z) :=
  if decide (key = []) then Raise (ValueError EmptyKey)
  else
    let index := dict_of_enumerate LETTERS in
    let key_upper := upper key in
    let key_filtered := filter (fun ch => is_Some (index !! ch)) key_upper in
    if decide (key_filtered = []) then Raise (ValueError NoValidKeyChars)
    else Ok (key_filtered, index, Z.of_nat (length LETTERS)).

(** The body of the [for ch in text.upper()] loop of [vigenere_encrypt],
    with the loop variables [key_i] and [out]. *)
Fixpoint encrypt_loop (key_filtered : str) (index : gmap Z Z) (n : Z)
    (text : str) (key_i : Z) (out : str) : result str :=
  match text with
  | [] => Ok out
  | ch :: text' =>
    if decide (is_Some (index !! ch)) then
      k ← pymod key_i (Z.of_nat (length key_filtered));
      kc ← getitem key_filtered k;
      shift ← dict_getitem index kc;
      c ← dict_getitem index ch;
      j ← pymod (c + shift) n;
      e ← getitem LETTERS j;
      encrypt_loop key_filtered index n text' (key_i + 1) (out ++ [e])
    else encrypt_loop key_filtered index n text' key_i (out ++ [ch])
  end.

Definition vigenere_encrypt (text key : str) : result str :=
  '(key_filtered, index, n) ← _prepare_key key;
  encrypt_loop key_filtered index n (upper text) 0 [].

Fixpoint decrypt_loop (key_filtered : str) (index : gmap Z Z) (n : Z)
    (text : str) (key_i : Z) (out : str) : result str :=
  match text with
  | [] => Ok out
  | ch :: text' =>
    if decide (is_Some (index !! ch)) then
      k ← pymod key_i (Z.of_nat (length key_filtered));
      kc ← getitem key_filtered k;
      shift ← dict_getitem index kc;
      c ← dict_getitem index ch;
      j ← pymod (c - shift) n;
      d ← getitem LETTERS j;
      decrypt_loop key_filtered index n text' (key_i + 1) (out ++ [d])
    else decrypt_loop key_filtered index n text' key_i (out ++ [ch])
  end.

Definition vigenere_decrypt (text key : str) : result str :=
  '(key_filtered, index, n) ← _prepare_key key;
  decrypt_loop key_filtered index n (upper text) 0 [].

End Vigenere.

(** ** [utils.py]: the strict key check *)

Module Utils.
Import Py.
Local Open Scope Z_scope.

(** [utils.LETTERS], spelled out a second time in the source. *)
Definition LETTERS : str :=
  [ 65; 66; 67; 68; 69; 70; 71; 72; 73; 74; 75; 76; 77;
    78; 79; 80; 81; 82; 83; 84; 85; 86; 87; 88; 89; 90;
    0x410; 0x411; 0x412; 0x413; 0x414; 0x415; 0x401; 0x416; 0x417; 0x418;
    0x419; 0x41A; 0x41B; 0x41C; 0x41D; 0x41E; 0x41F; 0x420; 0x421; 0x422;
    0x423; 0x424; 0x425; 0x426; 0x427; 0x428; 0x429; 0x42C; 0x42A; 0x42B;
    0x42D; 0x42E; 0x42F;
    0x490; 0x404; 0x406; 0x40E; 0x407; 0xDC; 0xD6; 0xC4; 0x1E9E; 0xC5;
    0xC6; 0xD8 ].

Definition validate_key (key : str) : bool :=
  if decide (key = []) then false
  else
    let key := upper key in
    forallb (fun ch => bool_decide (ch ∈ LETTERS)) key.

End Utils.

(** ** [project/steganography.py] *)

Module Steganography.
Import Py.
Local Open Scope Z_scope.

Definition ZWS_0 : char := 0x200B.
Definition ZWNJ_1 : char := 0x200C.

(** [b"ZWST"] *)
Definition MAGIC : bytes := [90; 87; 83; 84].
Definition HEADER_BITS : Z := 64.

Record CapacityInfo := { spaces : nat; bits_capacity : nat }.

Definition _bytes_to_bits (data : bytes) : str := flat_map format_08b data.

Fixpoint bits_to_bytes_loop (bits : str) (range : list nat) (out : bytes)
    : result bytes :=
  match range with
  | [] => Ok out
  | i :: range' =>
    v ← int2 (slice bits (Z.of_nat i) (Z.of_nat i + 8));
    out' ← bytearray_append out v;
    bits_to_bytes_loop bits range' out'
  end.

Definition _bits_to_bytes (bits : str) : result bytes :=
  if decide (length bits `mod` 8 ≠ 0)%nat then
    Raise (ValueError BitCountNotMultipleOf8)
  else bits_to_bytes_loop bits (range8 (length bits)) [].

Definition text_to_binary (text : str) : result str :=
  payload ← utf8_encode text;
  len ← to_bytes4 (Z.of_nat (length payload));
  let header := MAGIC ++ len in
  Ok (_bytes_to_bits (header ++ payload)).

Definition binary_to_text (binary : str) : result str :=
  header ← _bits_to_bytes (slice binary 0 HEADER_BITS);
  if decide (slice header 0 4 ≠ MAGIC) then Raise (ValueError BadFormat)
  else
    let length := from_bytes (drop 4 header) in
    let payload_bits := slice binary HEADER_BITS (HEADER_BITS + length * 8) in
    payload ← _bits_to_bytes payload_bits;
    utf8_decode payload.

Definition get_capacity (container : str) : CapacityInfo :=
  let spaces := count SPACE container in
  {| spaces := spaces; bits_capacity := spaces |}.

(** The [for ch in container] loop of [hide_text_in_container], with the
    loop variables [i] and [out]. *)
Fixpoint hide_loop (secret container : str) (i : Z) (out : str)
    : result str :=
  match container with
  | [] => Ok out
  | ch :: container' =>
    if decide (ch = SPACE ∧ i < Z.of_nat (length secret)) then
      b ← getitem secret i;
      hide_loop secret container' (i + 1)
        (out ++ [SPACE; if decide (b = DIGIT_0) then ZWS_0 else ZWNJ_1])
    else hide_loop secret container' i (out ++ [ch])
  end.

Definition hide_text_in_container (secret container : str) : result str :=
  let cap := get_capacity container in
  if decide (length secret > bits_capacity cap)%nat then
    Raise (ValueError ContainerTooSmall)
  else hide_loop secret container 0 [].

(** The [while i < len(container) - 1] loop of
    [extract_text_from_container]. Every iteration moves [i] forward, so
    [len(container)] iterations are enough; [None] stands for a loop that
    is still running when the fuel is spent. *)
Fixpoint extract_loop (fuel : nat) (container : str) (i : Z) (bits : str)
    : option (result str) :=
  if decide (i < Z.of_nat (length container) - 1) then
    match fuel with
    | O => None
    | S fuel' =>
      match getitem container i with
      | Raise e => Some (Raise e)
      | Ok c =>
        if decide (c = SPACE) then
          match getitem container (i + 1) with
          | Raise e => Some (Raise e)
          | Ok m =>
            if decide (m = ZWS_0) then
              extract_loop fuel' container (i + 2) (bits ++ [DIGIT_0])
            else if decide (m = ZWNJ_1) then
              extract_loop fuel' container (i + 2) (bits ++ [DIGIT_1])
            else extract_loop fuel' container (i + 1) bits
          end
        else extract_loop fuel' container (i + 1) bits
      end
    end
  else Some (Ok bits).

Definition extract_text_from_container (container : str)
    : option (result str) :=
  extract_loop (length container) container 0 [].

End Steganography.


(** ** [main.py]: the two commands *)

Module Main.
Import Py.
Local Open Scope Z_scope.

(** How a run of [main] ends once the arguments are parsed and the files
    named on the command line are read: with the file it writes, with the
    [SystemExit] of a rejected key, or with an exception of the core. *)
Inductive outcome :=
| Written (path : string) (content : str)
| SystemExit
| Raised (e : exn).

Definition finish (path : string) (r : result str) : outcome :=
  match r with
  | Ok content => Written path content
  | Raise e => Raised e
  end.

(** The [hide] command: [container] and [secret] are what [read_file]
    returns for [args.container] and [args.secret]. *)
Definition main_hide (key container secret : str) : outcome :=
  if negb (Utils.validate_key key) then SystemExit
  else
    finish "stego_container.txt"
      (encrypted ← Vigenere.vigenere_encrypt secret key;
       bits ← Steganography.text_to_binary encrypted;
       Steganography.hide_text_in_container bits container).

(** The [extract] command: [data] is what [read_file] returns for
    [args.input]; [None] when the extraction loop has not ended. *)
Definition main_extract (key data : str) : option outcome :=
  if negb (Utils.validate_key key) then Some SystemExit
  else
    match Steganography.extract_text_from_container data with
    | None => None
    | Some r =>
      Some (finish "extracted_secret.txt"
              (bits ← r;
               encrypted ← Steganography.binary_to_text bits;
               Vigenere.vigenere_decrypt encrypted key))
    end.

End Main.

(** ** Notions the statements use *)

Module Spec.
Import Py Steganography.
Local Open Scope Z_scope.

(** A string literal of ASCII characters as a [str]. *)
Definition asc (s : string) : str :=
  (fun a => Z.of_N (Ascii.N_of_ascii a)) <$> String.list_ascii_of_string s.

(** The values a Python [str] and a [bytes] object can hold. *)
Definition is_code_point (c : Z) : Prop := 0 <= c <= 0x10FFFF.
(** A code point UTF-8 can encode: any but a surrogate. *)
Definition is_scalar (c : Z) : Prop :=
  0 <= c <= 0x10FFFF /\ ~ (0xD800 <= c <= 0xDFFF).
Definition is_byte (b : Z) : Prop := 0 <= b < 256.
Definition is_bit (c : Z) : Prop := c = DIGIT_0 \/ c = DIGIT_1.

(** A code point that [str.upper] leaves alone. *)
Definition upper_fixed (c : Z) : Prop := upper_char c = [c].

(** Checks run over the upper-case table. *)
Definition unmapped (d : Z) : bool :=
  match assoc d upper_table with
  | None => true
  | Some _ => false
  end.

Definition images_unmapped (p : Z * list Z) : bool := forallb unmapped p.2.

Definition image_nonempty (p : Z * list Z) : bool :=
  match p.2 with
  | [] => false
  | _ :: _ => true
  end.

(** The check run over the 256 bytes: reading the eight digits of a byte
    gives the byte back. *)
Definition byte_roundtrips (b : Z) : bool :=
  match int2 (format_08b b) with
  | Ok v => bool_decide (v = b)
  | Raise _ => false
  end.

(** The alphabet dictionary built by [_prepare_key], and the checks run
    over it: every letter of [LETTERS] is indexed by its own position. *)
Abbreviation index := (dict_of_enumerate Vigenere.LETTERS).

Definition letter_indexed (j : Z) : bool :=
  match Vigenere.LETTERS !! Z.to_nat j with
  | Some ch => bool_decide (index !! ch = Some j)
  | None => false
  end.

Definition index_entry_ok (ch c : Z) : Prop :=
  0 <= c < 71 /\ Vigenere.LETTERS !! Z.to_nat c = Some ch /\ upper_char ch = [ch].

(** What [_prepare_key] keeps of a key. *)
Definition key_filtered (key : str) : str :=
  filter (fun ch => is_Some (index !! ch)) (upper key).

(** A key the cipher rejects, in the words of the specification: empty, or
    nothing of its upper-cased form is a letter of the alphabet. *)
Definition invalid_key (key : str) : Prop :=
  key = [] \/ filter (fun ch => ch ∈ Vigenere.LETTERS) (upper key) = [].

(** *** The carrier *)

(** The marker [hide_text_in_container] writes for a character of the
    secret, and the digit [extract_text_from_container] reads back. *)
Definition marker (b : Z) : Z := if decide (b = DIGIT_0) then ZWS_0 else ZWNJ_1.
Definition digit_read (b : Z) : Z := if decide (b = DIGIT_0) then DIGIT_0 else DIGIT_1.

(** The marker the specification gives a bit. *)
Definition bit_marker (b : Z) : option Z :=
  if decide (b = DIGIT_0) then Some ZWS_0
  else if decide (b = DIGIT_1) then Some ZWNJ_1
  else None.

(** The embedding loop as a recursion on the carrier that consumes the
    secret from its head. *)
Fixpoint embed (bits carrier : str) : str :=
  match carrier with
  | [] => []
  | ch :: rest =>
    if decide (ch = SPACE) then
      match bits with
      | b :: bits' => SPACE :: marker b :: embed bits' rest
      | [] => ch :: embed [] rest
      end
    else ch :: embed bits rest
  end.

(** The marked carrier in the words of the specification: with no bit
    left the carrier is kept as it is; otherwise everything up to the first
    space is kept, the marker of the first bit follows that space, and the
    remaining bits go into what follows. *)
Inductive Embedded : str -> str -> str -> Prop :=
| Embedded_done carrier : Embedded [] carrier carrier
| Embedded_bit b bits pre rest m out :
    SPACE ∉ pre ->
    bit_marker b = Some m ->
    Embedded bits rest out ->
    Embedded (b :: bits) (pre ++ SPACE :: rest) (pre ++ SPACE :: m :: out).

(** [p] is the position of space number [i] (from 0) of the carrier. *)
Definition nth_space (carrier : str) (i p : nat) : Prop :=
  carrier !! p = Some SPACE /\ count SPACE (take p carrier) = i.

(** What follows space number [n] (from 1) of the carrier; the whole
    carrier for [n = 0]. *)
Fixpoint after_spaces (n : nat) (carrier : str) : str :=
  match carrier with
  | [] => []
  | ch :: rest =>
    match n with
    | O => carrier
    | S n' =>
      if decide (ch = SPACE) then after_spaces n' rest
      else after_spaces n rest
    end
  end.

(** The extraction loop as a recursion on what is left to scan. *)
Fixpoint scan (container : str) : str :=
  match container with
  | [] => []
  | c :: rest =>
    match rest with
    | [] => []
    | m :: rest' =>
      if decide (c = SPACE) then
        if decide (m = ZWS_0) then DIGIT_0 :: scan rest'
        else if decide (m = ZWNJ_1) then DIGIT_1 :: scan rest'
        else scan rest
      else scan rest
    end
  end.

(** A space immediately followed by one of the two markers. *)
Definition has_marked_space (container : str) : Prop :=
  exists i : nat,
    container !! i = Some SPACE /\
    (container !! S i = Some ZWS_0 \/ container !! S i = Some ZWNJ_1).

(** The frame of the empty text, and a carrier whose 65th space already
    carries a marker. *)
Definition empty_frame : str := _bytes_to_bits (MAGIC ++ [0; 0; 0; 0]).
Definition premarked_carrier : str := replicate 64 SPACE ++ [SPACE; ZWS_0].

(** *** Notions of the further properties *)

(** The number of alphabet letters among the first [i] characters: the
    value of [key_i] when the cipher loop reaches position [i]. *)
Definition letters_before (text : str) (i : nat) : nat :=
  length (filter (fun ch => ch ∈ Vigenere.LETTERS) (take i text)).

(** A surrogate code point. *)
Definition is_surrogate (c : Z) : Prop := 0xD800 <= c <= 0xDFFF.

(** The two invisible characters, and a text without them. *)
Definition is_marker (c : Z) : Prop := c = ZWS_0 \/ c = ZWNJ_1.
Definition visible (s : str) : str := filter (fun c => ~ is_marker c) s.

(** The check run over the upper-case table: images are code points and
    no surrogates. *)
Definition image_scalar (p : Z * list Z) : bool :=
  forallb (fun d => bool_decide (0 <= d <= 0x10FFFF /\ ~ (0xD800 <= d <= 0xDFFF))) p.2.

End Spec.

(** ** Properties of the built-ins *)

Import Py Spec.
Local Open Scope Z_scope.

Lemma bind_Ok {A B} (f : A -> result B) (a : A) : Ok a ≫= f = f a.
Proof. reflexivity. Qed.

Lemma bind_Raise {A B} (f : A -> result B) (e : exn) : Raise e ≫= f = Raise e.
Proof. reflexivity. Qed.

Lemma returns_or_raises {A} (m : result A) : returns m \/ raises m.
Proof. destruct m; [left | right]; eexists; reflexivity. Qed.

Lemma returns_not_raises {A} (m : result A) : returns m -> ~ raises m.
Proof. intros [a ->] [e He]. discriminate. Qed.

(** *** Upper-casing *)

Lemma assoc_In c t u : assoc c t = Some u -> In (c, u) t.
Proof.
  induction t as [|[k v] t IH]; simpl; [discriminate|].
  case_decide as Hk.
  - intros [= ->]. left. now subst.
  - intros H. right. auto.
Qed.

Lemma upper_table_images_unmapped : forallb images_unmapped upper_table = true.
Proof. vm_compute. reflexivity. Qed.

Lemma upper_char_unmapped c : assoc c upper_table = None -> upper_fixed c.
Proof. unfold upper_fixed, upper_char. now intros ->. Qed.

(** No code point of an upper-cased string is changed by upper-casing. *)
Lemma upper_char_fixed c d : In d (upper_char c) -> upper_fixed d.
Proof.
  unfold upper_char at 1. destruct (assoc c upper_table) as [u|] eqn:E.
  - intros Hd. apply assoc_In in E.
    pose proof upper_table_images_unmapped as H.
    rewrite forallb_forall in H. specialize (H _ E).
    unfold images_unmapped in H. rewrite forallb_forall in H.
    specialize (H _ Hd). unfold unmapped in H.
    apply upper_char_unmapped. now destruct (assoc d upper_table).
  - intros [<-|[]]. now apply upper_char_unmapped.
Qed.

Lemma upper_cons c s : upper (c :: s) = upper_char c ++ upper s.
Proof. reflexivity. Qed.

Lemma upper_of_fixed s : Forall upper_fixed s -> upper s = s.
Proof.
  induction 1 as [|c s Hc _ IH]; [reflexivity|].
  rewrite upper_cons, Hc, IH. reflexivity.
Qed.

Lemma upper_is_fixed s : Forall upper_fixed (upper s).
Proof.
  induction s as [|c s IH]; [constructor|].
  rewrite upper_cons. apply Forall_app. split; [|exact IH].
  apply List.Forall_forall. intros d Hd. now apply (upper_char_fixed c).
Qed.

Lemma upper_idempotent s : upper (upper s) = upper s.
Proof. apply upper_of_fixed, upper_is_fixed. Qed.

Lemma upper_char_nonempty c : upper_char c <> [].
Proof.
  unfold upper_char. destruct (assoc c upper_table) as [u|] eqn:E; [|discriminate].
  apply assoc_In in E.
  assert (H : forallb image_nonempty upper_table = true)
    by (vm_compute; reflexivity).
  rewrite forallb_forall in H. specialize (H _ E).
  now destruct u.
Qed.

Lemma upper_nonempty s : s <> [] -> upper s <> [].
Proof.
  destruct s as [|c s]; [congruence|]. intros _. rewrite upper_cons.
  pose proof (upper_char_nonempty c). destruct (upper_char c); [congruence|discriminate].
Qed.

(** ** The cipher *)

Import Vigenere.

Lemma getitem_Ok {A} (l : list A) (j : Z) (x : A) :
  0 <= j -> l !! Z.to_nat j = Some x -> getitem l j = Ok x.
Proof.
  intros Hj Hx. unfold getitem.
  apply lookup_lt_Some in Hx as Hlt.
  destruct (decide (j < 0)) as [|_]; [lia|].
  destruct (decide (0 <= j < Z.of_nat (length l))) as [_|]; [|lia].
  now rewrite Hx.
Qed.

Lemma index_sound : map_Forall index_entry_ok index.
Proof. apply (bool_decide_unpack _). vm_compute. exact I. Qed.

Lemma index_complete_check : forallb letter_indexed (seqZ 0 71) = true.
Proof. vm_compute. reflexivity. Qed.

Lemma index_lookup ch c :
  index !! ch = Some c ->
  0 <= c < 71 /\ LETTERS !! Z.to_nat c = Some ch /\ upper_fixed ch.
Proof. intros H. exact (index_sound ch c H). Qed.

Lemma index_of_letter j :
  0 <= j < 71 ->
  exists ch, LETTERS !! Z.to_nat j = Some ch /\ index !! ch = Some j.
Proof.
  intros Hj. pose proof index_complete_check as H.
  rewrite forallb_forall in H.
  assert (Hin : In j (seqZ 0 71)).
  { apply list_elem_of_In, elem_of_seqZ. lia. }
  specialize (H _ Hin). unfold letter_indexed in H.
  destruct (LETTERS !! Z.to_nat j) as [ch|]; [|discriminate].
  exists ch. split; [reflexivity|]. now apply bool_decide_eq_true in H.
Qed.

(** The keys of the dictionary are the characters of [LETTERS]. *)
Lemma index_dom ch : is_Some (index !! ch) <-> ch ∈ LETTERS.
Proof.
  split.
  - intros [c Hc]. apply index_lookup in Hc as (_ & Hl & _).
    apply list_elem_of_lookup. eauto.
  - intros Hin. apply list_elem_of_lookup in Hin as [i Hi].
    apply lookup_lt_Some in Hi as Hlt. change (length LETTERS) with 71%nat in Hlt.
    destruct (index_of_letter (Z.of_nat i)) as (ch' & Hl & Hx); [lia|].
    rewrite Nat2Z.id in Hl. rewrite Hi in Hl. injection Hl as <-. eauto.
Qed.

Lemma key_filtered_spec key :
  key_filtered key = filter (fun ch => ch ∈ LETTERS) (upper key).
Proof. unfold key_filtered. apply list_filter_iff. intros ch. apply index_dom. Qed.

Lemma invalid_key_filtered key : invalid_key key <-> key_filtered key = [].
Proof.
  unfold invalid_key. rewrite <- key_filtered_spec. split; [|auto].
  intros [->|H]; [reflexivity|exact H].
Qed.

Lemma prepare_key_Ok key :
  key_filtered key <> [] ->
  _prepare_key key = Ok (key_filtered key, index, 71).
Proof.
  intros H. unfold _prepare_key.
  rewrite decide_False by (intros ->; now apply H).
  fold (key_filtered key). now rewrite decide_False.
Qed.

Lemma prepare_key_Raise key :
  key_filtered key = [] ->
  exists m, _prepare_key key = Raise (ValueError m).
Proof.
  intros H. unfold _prepare_key. case_decide; [eauto|].
  fold (key_filtered key). rewrite decide_True by assumption. eauto.
Qed.

Lemma encrypt_loop_cons kf (idx : gmap Z Z) n ch text key_i out :
  encrypt_loop kf idx n (ch :: text) key_i out =
  if decide (is_Some (idx !! ch)) then
    k ← pymod key_i (Z.of_nat (length kf));
    kc ← getitem kf k;
    shift ← dict_getitem idx kc;
    c ← dict_getitem idx ch;
    j ← pymod (c + shift) n;
    e ← getitem LETTERS j;
    encrypt_loop kf idx n text (key_i + 1) (out ++ [e])
  else encrypt_loop kf idx n text key_i (out ++ [ch]).
Proof. reflexivity. Qed.

Lemma decrypt_loop_cons kf (idx : gmap Z Z) n ch text key_i out :
  decrypt_loop kf idx n (ch :: text) key_i out =
  if decide (is_Some (idx !! ch)) then
    k ← pymod key_i (Z.of_nat (length kf));
    kc ← getitem kf k;
    shift ← dict_getitem idx kc;
    c ← dict_getitem idx ch;
    j ← pymod (c - shift) n;
    d ← getitem LETTERS j;
    decrypt_loop kf idx n text (key_i + 1) (out ++ [d])
  else decrypt_loop kf idx n text key_i (out ++ [ch]).
Proof. reflexivity. Qed.

Section cipher_loops.
Variable kf : list Z.
Hypothesis kf_nonempty : kf <> [].
Hypothesis kf_letters : Forall (fun kc => is_Some (index !! kc)) kf.

(** The shift read from the key at position [key_i]. *)
Lemma shift_at key_i :
  0 <= key_i ->
  exists k kc shift,
    pymod key_i (Z.of_nat (length kf)) = Ok k /\ getitem kf k = Ok kc /\
    dict_getitem index kc = Ok shift /\ 0 <= shift < 71.
Proof using kf_nonempty kf_letters.
  intros Hi. assert (Hlen : 0 < Z.of_nat (length kf)).
  { destruct kf; [congruence|rewrite length_cons; lia]. }
  pose proof (Z.mod_pos_bound key_i _ Hlen) as Hk.
  destruct (lookup_lt_is_Some_2 kf (Z.to_nat (key_i mod Z.of_nat (length kf))))
    as [kc Hkc]; [lia|].
  rewrite List.Forall_forall in kf_letters.
  destruct (kf_letters kc) as [shift Hs].
  { apply list_elem_of_In, list_elem_of_lookup. eauto. }
  exists (key_i mod Z.of_nat (length kf)), kc, shift. repeat split.
  - unfold pymod. now rewrite decide_False by lia.
  - apply getitem_Ok; [lia|assumption].
  - unfold dict_getitem. now rewrite Hs.
  - apply index_lookup in Hs. lia.
  - apply index_lookup in Hs. lia.
Qed.

Lemma dict_getitem_Ok ch c : index !! ch = Some c -> dict_getitem index ch = Ok c.
Proof. unfold dict_getitem. now intros ->. Qed.

Lemma pymod_71 x : pymod x 71 = Ok (x mod 71).
Proof. reflexivity. Qed.

(** Encrypting and then decrypting from the same key position gives the
    text back; the cipher text is made of letters and of characters of the
    text, so upper-casing does not change it. *)
Lemma roundtrip_loop text :
  Forall upper_fixed text ->
  forall key_i out out', 0 <= key_i ->
  exists c,
    encrypt_loop kf index 71 text key_i out = Ok (out ++ c) /\
    Forall upper_fixed c /\
    decrypt_loop kf index 71 c key_i out' = Ok (out' ++ text).
Proof using kf_nonempty kf_letters.
  induction 1 as [|ch text Hch _ IH]; intros key_i out out' Hi.
  - exists []. rewrite !app_nil_r. repeat split. constructor.
  - rewrite encrypt_loop_cons.
    destruct (decide (is_Some (index !! ch))) as [[c0 Hc0]|Hno].
    + destruct (shift_at key_i Hi) as (k & kc & shift & Hk & Hkc & Hs & Hsr).
      destruct (index_lookup _ _ Hc0) as (Hc0r & Hl0 & _).
      pose proof (Z.mod_pos_bound (c0 + shift) 71 eq_refl) as Hj.
      destruct (index_of_letter _ Hj) as (e & Hle & Hie).
      destruct (index_lookup _ _ Hie) as (_ & _ & He).
      destruct (IH (key_i + 1) (out ++ [e]) (out' ++ [ch])) as (c & Henc & Hfix & Hdec);
        [lia|].
      exists (e :: c). split; [|split].
      * rewrite Hk, bind_Ok, Hkc, bind_Ok, Hs, bind_Ok.
        rewrite (dict_getitem_Ok _ _ Hc0), bind_Ok, pymod_71, bind_Ok.
        rewrite (getitem_Ok _ _ _ (proj1 Hj) Hle), bind_Ok.
        rewrite Henc, <- app_assoc. reflexivity.
      * constructor; assumption.
      * rewrite decrypt_loop_cons, decide_True by eauto.
        rewrite Hk, bind_Ok, Hkc, bind_Ok, Hs, bind_Ok.
        rewrite (dict_getitem_Ok _ _ Hie), bind_Ok, pymod_71, bind_Ok.
        assert (Hback : ((c0 + shift) mod 71 - shift) mod 71 = c0).
        { rewrite Zminus_mod_idemp_l.
          replace (c0 + shift - shift) with c0 by lia.
          apply Z.mod_small. lia. }
        rewrite Hback, (getitem_Ok _ _ _ (proj1 Hc0r) Hl0), bind_Ok.
        rewrite Hdec, <- app_assoc. reflexivity.
    + destruct (IH key_i (out ++ [ch]) (out' ++ [ch])) as (c & Henc & Hfix & Hdec);
        [lia|].
      exists (ch :: c). split; [|split].
      * rewrite Henc, <- app_assoc. reflexivity.
      * constructor; assumption.
      * rewrite decrypt_loop_cons, decide_False by assumption.
        rewrite Hdec, <- app_assoc. reflexivity.
Qed.

Lemma encrypt_loop_returns text :
  forall key_i out, 0 <= key_i -> returns (encrypt_loop kf index 71 text key_i out).
Proof using kf_nonempty kf_letters.
  induction text as [|ch text IH]; intros key_i out Hi.
  - eexists. reflexivity.
  - rewrite encrypt_loop_cons.
    destruct (decide (is_Some (index !! ch))) as [[c0 Hc0]|Hno].
    + destruct (shift_at key_i Hi) as (k & kc & shift & Hk & Hkc & Hs & Hsr).
      pose proof (Z.mod_pos_bound (c0 + shift) 71 eq_refl) as Hj.
      destruct (index_of_letter _ Hj) as (e & Hle & _).
      rewrite Hk, bind_Ok, Hkc, bind_Ok, Hs, bind_Ok.
      rewrite (dict_getitem_Ok _ _ Hc0), bind_Ok, pymod_71, bind_Ok.
      rewrite (getitem_Ok _ _ _ (proj1 Hj) Hle), bind_Ok.
      apply IH. lia.
    + apply IH. lia.
Qed.

Lemma decrypt_loop_returns text :
  forall key_i out, 0 <= key_i -> returns (decrypt_loop kf index 71 text key_i out).
Proof using kf_nonempty kf_letters.
  induction text as [|ch text IH]; intros key_i out Hi.
  - eexists. reflexivity.
  - rewrite decrypt_loop_cons.
    destruct (decide (is_Some (index !! ch))) as [[c0 Hc0]|Hno].
    + destruct (shift_at key_i Hi) as (k & kc & shift & Hk & Hkc & Hs & Hsr).
      pose proof (Z.mod_pos_bound (c0 - shift) 71 eq_refl) as Hj.
      destruct (index_of_letter _ Hj) as (e & Hle & _).
      rewrite Hk, bind_Ok, Hkc, bind_Ok, Hs, bind_Ok.
      rewrite (dict_getitem_Ok _ _ Hc0), bind_Ok, pymod_71, bind_Ok.
      rewrite (getitem_Ok _ _ _ (proj1 Hj) Hle), bind_Ok.
      apply IH. lia.
    + apply IH. lia.
Qed.
End cipher_loops.

Lemma key_filtered_letters key :
  Forall (fun kc => is_Some (index !! kc)) (key_filtered key).
Proof.
  apply List.Forall_forall. intros kc Hin.
  apply list_elem_of_In, list_elem_of_filter in Hin. tauto.
Qed.

Lemma vigenere_encrypt_valid text key :
  key_filtered key <> [] ->
  vigenere_encrypt text key =
  encrypt_loop (key_filtered key) index 71 (upper text) 0 [].
Proof.
  intros H. unfold vigenere_encrypt. now rewrite (prepare_key_Ok _ H), bind_Ok.
Qed.

Lemma vigenere_decrypt_valid text key :
  key_filtered key <> [] ->
  vigenere_decrypt text key =
  decrypt_loop (key_filtered key) index 71 (upper text) 0 [].
Proof.
  intros H. unfold vigenere_decrypt. now rewrite (prepare_key_Ok _ H), bind_Ok.
Qed.

Lemma vigenere_encrypt_invalid text key :
  key_filtered key = [] ->
  exists m, vigenere_encrypt text key = Raise (ValueError m).
Proof.
  intros H. destruct (prepare_key_Raise _ H) as [m Hm]. exists m.
  unfold vigenere_encrypt. now rewrite Hm.
Qed.

Lemma vigenere_decrypt_invalid text key :
  key_filtered key = [] ->
  exists m, vigenere_decrypt text key = Raise (ValueError m).
Proof.
  intros H. destruct (prepare_key_Raise _ H) as [m Hm]. exists m.
  unfold vigenere_decrypt. now rewrite Hm.
Qed.

(** C2. Whenever [vigenere_encrypt text key] returns a cipher text,
    decrypting that cipher text with the same key returns the upper-cased
    text. *)
Theorem vigenere_decrypt_encrypt (text key enc : list Z) :
  vigenere_encrypt text key = Ok enc ->
  vigenere_decrypt enc key = Ok (upper text).
Proof.
  intros Henc. destruct (decide (key_filtered key = [])) as [Hk|Hk].
  - destruct (vigenere_encrypt_invalid text key Hk) as [m Hm]. congruence.
  - rewrite vigenere_encrypt_valid in Henc by assumption.
    destruct (roundtrip_loop (key_filtered key) Hk (key_filtered_letters key)
                (upper text) (upper_is_fixed text) 0 [] [])
      as (c & Hc & Hfix & Hdec); [lia|].
    rewrite Hc in Henc. injection Henc as <-.
    rewrite vigenere_decrypt_valid by assumption.
    rewrite (upper_of_fixed _ Hfix). exact Hdec.
Qed.

Lemma vigenere_decrypt_encrypt_witness :
  vigenere_encrypt (asc "A-b c!") (asc "b")
    = Ok (asc "B-C D!") /\
  vigenere_decrypt (asc "B-C D!") (asc "b")
    = Ok (upper (asc "A-b c!")).
Proof.
  assert (H : vigenere_encrypt (asc "A-b c!") (asc "b")
              = Ok (asc "B-C D!")) by (vm_compute; reflexivity).
  split; [exact H|].
  exact (vigenere_decrypt_encrypt _ _ _ H).
Defined.

(** C7. [vigenere_encrypt] and [vigenere_decrypt] raise a [ValueError]
    exactly when the key is empty or nothing of its upper-cased form is in
    the alphabet; on every other key both return. *)
Theorem cipher_raises_iff_invalid_key (text key : list Z) :
  (invalid_key key <-> exists m, vigenere_encrypt text key = Raise (ValueError m)) /\
  (invalid_key key <-> exists m, vigenere_decrypt text key = Raise (ValueError m)) /\
  (~ invalid_key key <-> returns (vigenere_encrypt text key)) /\
  (~ invalid_key key <-> returns (vigenere_decrypt text key)).
Proof.
  rewrite invalid_key_filtered.
  destruct (decide (key_filtered key = [])) as [Hk|Hk].
  - destruct (vigenere_encrypt_invalid text key Hk) as [m Hm].
    destruct (vigenere_decrypt_invalid text key Hk) as [m' Hm'].
    repeat split; intros; eauto; try contradiction.
    + destruct H as [a Ha]. congruence.
    + destruct H as [a Ha]. congruence.
  - assert (He : returns (vigenere_encrypt text key)).
    { rewrite vigenere_encrypt_valid by assumption.
      apply encrypt_loop_returns; [assumption|apply key_filtered_letters|lia]. }
    assert (Hd : returns (vigenere_decrypt text key)).
    { rewrite vigenere_decrypt_valid by assumption.
      apply decrypt_loop_returns; [assumption|apply key_filtered_letters|lia]. }
    repeat split; intros; eauto; try contradiction.
    + destruct H as [m Hm], He as [a Ha]. congruence.
    + destruct H as [m Hm], Hd as [a Ha]. congruence.
Qed.

Lemma cipher_raises_iff_invalid_key_witness :
  (exists m, vigenere_encrypt (asc "HELLO") (asc "123!!!") = Raise (ValueError m)) /\
  returns (vigenere_decrypt (asc "ANY") (asc "key")).
Proof.
  split.
  - apply (cipher_raises_iff_invalid_key (asc "HELLO") (asc "123!!!")).
    right. vm_compute. reflexivity.
  - apply (cipher_raises_iff_invalid_key (asc "ANY") (asc "key")).
    intros [H|H]; vm_compute in H; discriminate H.
Defined.

Lemma utils_letters : Utils.LETTERS = Vigenere.LETTERS.
Proof. reflexivity. Qed.

Lemma validate_key_true key :
  Utils.validate_key key = true <->
  key <> [] /\ Forall (fun ch => ch ∈ Utils.LETTERS) (upper key).
Proof.
  unfold Utils.validate_key. case_decide as Hk.
  - split; [discriminate|]. intros [H _]. contradiction.
  - rewrite forallb_forall, List.Forall_forall. split.
    + intros H. split; [assumption|]. intros ch Hin.
      apply (bool_decide_eq_true _), H, Hin.
    + intros [_ H] ch Hin. apply (bool_decide_eq_true _), H, Hin.
Qed.

(** C8. [validate_key] accepts a key exactly when it is not empty and every
    character of its upper-cased form is in the alphabet. Every key it
    accepts is one [_prepare_key] accepts, and not the other way round:
    on ["A!"] the check answers false and [_prepare_key] keeps ["A"]. *)
Theorem validate_key_strict (key : list Z) :
  (Utils.validate_key key = true <->
     key <> [] /\ Forall (fun ch => ch ∈ Utils.LETTERS) (upper key)) /\
  (Utils.validate_key key = true ->
     _prepare_key key = Ok (upper key, index, 71)) /\
  Utils.validate_key (asc "A!") = false /\
  _prepare_key (asc "A!") = Ok (asc "A", index, 71).
Proof.
  split; [apply validate_key_true|]. split; [|split].
  - intros H. apply validate_key_true in H as [Hne Hall].
    assert (Hf : key_filtered key = upper key).
    { rewrite key_filtered_spec. rewrite <- utils_letters.
      clear Hne. induction Hall as [|ch l Hch _ IH]; [reflexivity|].
      rewrite filter_cons_True by assumption. now rewrite IH. }
    rewrite <- Hf at 1. apply prepare_key_Ok.
    rewrite Hf. now apply upper_nonempty.
  - vm_compute. reflexivity.
  - apply (prepare_key_Ok (asc "A!")). vm_compute. discriminate.
Qed.

Lemma validate_key_strict_witness :
  Utils.validate_key (asc "kEy") = true /\
  _prepare_key (asc "kEy") = Ok (asc "KEY", index, 71).
Proof.
  assert (H : Utils.validate_key (asc "kEy") = true) by (vm_compute; reflexivity).
  split; [exact H|].
  exact (proj1 (proj2 (validate_key_strict (asc "kEy"))) H).
Defined.

(** ** The framing codec *)

Import Steganography.

(** *** UTF-8 *)

Lemma utf8_decode_cons b0 r0 :
  utf8_decode (b0 :: r0) =
  if decide (b0 < 0x80) then
    s ← utf8_decode r0; Ok (b0 :: s)
  else if decide (0xC2 <= b0 <= 0xDF) then
    match r0 with
    | b1 :: r1 =>
      if is_cont b1 then
        s ← utf8_decode r1; Ok ((b0 - 0xC0) * 64 + (b1 - 0x80) :: s)
      else Raise UnicodeDecodeError
    | _ => Raise UnicodeDecodeError
    end
  else if decide (0xE0 <= b0 <= 0xEF) then
    match r0 with
    | b1 :: b2 :: r2 =>
      let c := (b0 - 0xE0) * 4096 + (b1 - 0x80) * 64 + (b2 - 0x80) in
      if is_cont b1 && is_cont b2 && bool_decide (0x800 <= c)
         && negb (bool_decide (0xD800 <= c <= 0xDFFF)) then
        s ← utf8_decode r2; Ok (c :: s)
      else Raise UnicodeDecodeError
    | _ => Raise UnicodeDecodeError
    end
  else if decide (0xF0 <= b0 <= 0xF4) then
    match r0 with
    | b1 :: b2 :: b3 :: r3 =>
      let c := (b0 - 0xF0) * 262144 + (b1 - 0x80) * 4096
               + (b2 - 0x80) * 64 + (b3 - 0x80) in
      if is_cont b1 && is_cont b2 && is_cont b3
         && bool_decide (0x10000 <= c <= 0x10FFFF) then
        s ← utf8_decode r3; Ok (c :: s)
      else Raise UnicodeDecodeError
    | _ => Raise UnicodeDecodeError
    end
  else Raise UnicodeDecodeError.
Proof. destruct r0 as [|b1 [|b2 [|b3 r3]]]; reflexivity. Qed.

Ltac divmod := Z.div_mod_to_equations; lia.

Lemma is_cont_low6 x : is_cont (0x80 + x mod 64) = true.
Proof. apply bool_decide_eq_true. divmod. Qed.

(** Decoding reads back the bytes of one encoded code point. *)
Lemma utf8_decode_encode_char c b rest :
  is_code_point c ->
  utf8_encode_char c = Ok b ->
  utf8_decode (b ++ rest) = (s ← utf8_decode rest; Ok (c :: s)).
Proof.
  unfold is_code_point, utf8_encode_char. intros Hc.
  repeat case_decide; intros [= <-]; cbn [app]; rewrite utf8_decode_cons.
  - rewrite decide_True by lia. reflexivity.
  - destruct (decide (0xC0 + c / 64 < 0x80)) as [|_]; [divmod|].
    destruct (decide (0xC2 <= 0xC0 + c / 64 <= 0xDF)) as [_|]; [|divmod].
    rewrite is_cont_low6. f_equal.
    replace ((0xC0 + c / 64 - 0xC0) * 64 + (0x80 + c mod 64 - 0x80)) with c
      by divmod.
    reflexivity.
  - destruct (decide (0xE0 + c / 4096 < 0x80)) as [|_]; [divmod|].
    destruct (decide (0xC2 <= 0xE0 + c / 4096 <= 0xDF)) as [|_]; [divmod|].
    destruct (decide (0xE0 <= 0xE0 + c / 4096 <= 0xEF)) as [_|]; [|divmod].
    cbv zeta. rewrite !is_cont_low6.
    replace ((0xE0 + c / 4096 - 0xE0) * 4096 + (0x80 + (c / 64) mod 64 - 0x80) * 64
             + (0x80 + c mod 64 - 0x80)) with c by divmod.
    rewrite bool_decide_eq_true_2 by lia.
    rewrite bool_decide_eq_false_2 by lia. reflexivity.
  - destruct (decide (0xF0 + c / 262144 < 0x80)) as [|_]; [divmod|].
    destruct (decide (0xC2 <= 0xF0 + c / 262144 <= 0xDF)) as [|_]; [divmod|].
    destruct (decide (0xE0 <= 0xF0 + c / 262144 <= 0xEF)) as [|_]; [divmod|].
    destruct (decide (0xF0 <= 0xF0 + c / 262144 <= 0xF4)) as [_|]; [|divmod].
    cbv zeta. rewrite !is_cont_low6.
    replace ((0xF0 + c / 262144 - 0xF0) * 262144
             + (0x80 + (c / 4096) mod 64 - 0x80) * 4096
             + (0x80 + (c / 64) mod 64 - 0x80) * 64
             + (0x80 + c mod 64 - 0x80)) with c by divmod.
    rewrite bool_decide_eq_true_2 by lia. reflexivity.
Qed.

Lemma utf8_encode_char_bytes c b :
  is_code_point c -> utf8_encode_char c = Ok b -> Forall is_byte b.
Proof.
  unfold is_code_point, utf8_encode_char, is_byte. intros Hc.
  repeat case_decide; intros [= <-];
    repeat (apply Forall_cons_2; [cbv beta; divmod|]); constructor.
Qed.

Lemma utf8_encode_cons_Ok c s p :
  utf8_encode (c :: s) = Ok p ->
  exists b p', utf8_encode_char c = Ok b /\ utf8_encode s = Ok p' /\ p = b ++ p'.
Proof.
  cbn [utf8_encode]. destruct (utf8_encode_char c) as [b|]; [|discriminate].
  rewrite bind_Ok. destruct (utf8_encode s) as [p'|]; [|discriminate].
  rewrite bind_Ok. intros [= <-]. eauto.
Qed.

Lemma utf8_decode_encode s :
  Forall is_code_point s ->
  forall p, utf8_encode s = Ok p -> utf8_decode p = Ok s /\ Forall is_byte p.
Proof.
  induction 1 as [|c s Hc _ IH]; intros p Hp.
  - injection Hp as <-. split; [reflexivity|constructor].
  - apply utf8_encode_cons_Ok in Hp as (b & p' & Hb & Hp' & ->).
    destruct (IH _ Hp') as [Hd Hbytes]. split.
    + rewrite (utf8_decode_encode_char _ _ _ Hc Hb), Hd. reflexivity.
    + apply Forall_app. split; [|assumption].
      exact (utf8_encode_char_bytes _ _ Hc Hb).
Qed.

(** Every string without surrogates is encoded. *)
Lemma utf8_encode_scalar s : Forall is_scalar s -> returns (utf8_encode s).
Proof.
  induction 1 as [|c s [Hc Hs] _ [p IH]]; [eexists; reflexivity|].
  cbn [utf8_encode]. unfold utf8_encode_char.
  repeat case_decide; try contradiction; rewrite bind_Ok, IH; eexists; reflexivity.
Qed.

(** *** Bits and bytes *)

Lemma format_08b_length b : length (format_08b b) = 8%nat.
Proof. reflexivity. Qed.

Lemma format_08b_bits b : Forall is_bit (format_08b b).
Proof.
  unfold format_08b. cbn [fmap list_fmap].
  repeat (apply Forall_cons_2;
          [unfold is_bit; destruct (Z.testbit b _); auto|]).
  constructor.
Qed.

Lemma int2_format_08b b : is_byte b -> int2 (format_08b b) = Ok b.
Proof.
  intros Hb.
  assert (H : forallb byte_roundtrips (seqZ 0 256) = true)
    by (vm_compute; reflexivity).
  rewrite forallb_forall in H.
  assert (Hin : In b (seqZ 0 256)).
  { apply list_elem_of_In, elem_of_seqZ. unfold is_byte in Hb. lia. }
  specialize (H _ Hin). unfold byte_roundtrips in H.
  destruct (int2 (format_08b b)) as [v|]; [|discriminate].
  apply bool_decide_eq_true in H. now subst.
Qed.

Lemma bytes_to_bits_cons b bs :
  _bytes_to_bits (b :: bs) = format_08b b ++ _bytes_to_bits bs.
Proof. reflexivity. Qed.

Lemma bytes_to_bits_app a b :
  _bytes_to_bits (a ++ b) = _bytes_to_bits a ++ _bytes_to_bits b.
Proof. apply flat_map_app. Qed.

Lemma bytes_to_bits_length bs :
  length (_bytes_to_bits bs) = (8 * length bs)%nat.
Proof.
  induction bs as [|b bs IH]; [reflexivity|].
  rewrite bytes_to_bits_cons, length_app, format_08b_length, IH, length_cons. lia.
Qed.

Lemma bytes_to_bits_bits bs : Forall is_bit (_bytes_to_bits bs).
Proof.
  induction bs as [|b bs IH]; [constructor|].
  rewrite bytes_to_bits_cons. apply Forall_app. split; [apply format_08b_bits|exact IH].
Qed.

Lemma drop_bytes_to_bits k bs :
  drop (8 * k) (_bytes_to_bits bs) = _bytes_to_bits (drop k bs).
Proof.
  revert bs. induction k as [|k IH]; intros bs; [reflexivity|].
  destruct bs as [|b bs]; [reflexivity|].
  rewrite bytes_to_bits_cons. cbn [drop]. rewrite <- IH.
  replace (8 * S k)%nat with (length (format_08b b) + 8 * k)%nat
    by (rewrite format_08b_length; lia).
  apply drop_app_add.
Qed.

Lemma slice_from_0 {A} (s : list A) (n : Z) : slice s 0 n = take (Z.to_nat n) s.
Proof. unfold slice. now rewrite Z.sub_0_r, drop_0. Qed.

(** The eight digits read at offset [8 * k] are those of byte [k]. *)
Lemma slice_bytes_to_bits bs k b :
  bs !! k = Some b ->
  slice (_bytes_to_bits bs) (Z.of_nat (8 * k)) (Z.of_nat (8 * k) + 8) = format_08b b.
Proof.
  intros Hk. unfold slice.
  replace (Z.to_nat (Z.of_nat (8 * k) + 8 - Z.of_nat (8 * k))) with 8%nat by lia.
  rewrite Nat2Z.id, drop_bytes_to_bits.
  rewrite (drop_S _ _ _ Hk), bytes_to_bits_cons.
  now apply take_app_length'.
Qed.

Lemma bits_to_bytes_loop_cons bits i range out :
  bits_to_bytes_loop bits (i :: range) out =
  (v ← int2 (slice bits (Z.of_nat i) (Z.of_nat i + 8));
   out' ← bytearray_append out v;
   bits_to_bytes_loop bits range out').
Proof. reflexivity. Qed.

Lemma bytearray_append_byte out v :
  is_byte v -> bytearray_append out v = Ok (out ++ [v]).
Proof. intros H. unfold bytearray_append. now rewrite decide_True. Qed.

Lemma bits_to_bytes_loop_spec bs :
  Forall is_byte bs ->
  forall m k out, (k + m <= length bs)%nat ->
  bits_to_bytes_loop (_bytes_to_bits bs) ((fun j => (8 * j)%nat) <$> seq k m) out
  = Ok (out ++ take m (drop k bs)).
Proof.
  intros Hbs. induction m as [|m IH]; intros k out Hk.
  - cbn. now rewrite take_0, app_nil_r.
  - cbn [seq fmap list_fmap]. rewrite bits_to_bytes_loop_cons.
    destruct (lookup_lt_is_Some_2 bs k) as [b Hb]; [lia|].
    rewrite (slice_bytes_to_bits _ _ _ Hb).
    assert (Hbyte : is_byte b).
    { rewrite List.Forall_forall in Hbs. apply Hbs.
      apply list_elem_of_In, list_elem_of_lookup. eauto. }
    rewrite (int2_format_08b _ Hbyte), bind_Ok.
    rewrite (bytearray_append_byte _ _ Hbyte), bind_Ok.
    rewrite IH by lia. rewrite (drop_S _ _ _ Hb). cbn [take].
    now rewrite <- app_assoc.
Qed.

Lemma range8_bytes n :
  range8 (8 * n) = (fun j => (8 * j)%nat) <$> seq 0 n.
Proof.
  unfold range8. do 2 f_equal.
  replace (8 * n + 7)%nat with (7 + n * 8)%nat by lia.
  rewrite Nat.div_add by lia. reflexivity.
Qed.

(** Reading back the digits written for a sequence of bytes. *)
Lemma bits_to_bytes_to_bits bs :
  Forall is_byte bs -> _bits_to_bytes (_bytes_to_bits bs) = Ok bs.
Proof.
  intros Hbs. unfold _bits_to_bytes. rewrite bytes_to_bits_length.
  destruct (decide ((8 * length bs) `mod` 8 ≠ 0)%nat) as [Hm|_].
  - exfalso. apply Hm. rewrite Nat.mul_comm. apply Nat.Div0.mod_mul.
  - rewrite range8_bytes, (bits_to_bytes_loop_spec _ Hbs) by lia.
    rewrite drop_0, firstn_all. reflexivity.
Qed.

Lemma from_bytes_to_bytes4 n len :
  to_bytes4 n = Ok len ->
  from_bytes len = n /\ length len = 4%nat /\ Forall is_byte len.
Proof.
  unfold to_bytes4. case_decide as Hn; intros [= <-].
  split; [|split; [reflexivity|]].
  - unfold from_bytes. cbn [foldl]. change (2 ^ 24) with 16777216.
    change (2 ^ 16) with 65536. change (2 ^ 8) with 256.
    change (2 ^ 32) with 4294967296 in Hn. divmod.
  - change (2 ^ 24) with 16777216. change (2 ^ 16) with 65536.
    change (2 ^ 8) with 256. change (2 ^ 32) with 4294967296 in Hn.
    unfold is_byte. repeat (apply Forall_cons_2; [cbv beta; divmod|]). constructor.
Qed.

(** The success of [text_to_binary], and the shape of what it returns. *)
Lemma text_to_binary_Ok text payload :
  utf8_encode text = Ok payload ->
  Z.of_nat (length payload) < 2 ^ 32 ->
  exists len,
    to_bytes4 (Z.of_nat (length payload)) = Ok len /\
    text_to_binary text = Ok (_bytes_to_bits (MAGIC ++ len) ++ _bytes_to_bits payload).
Proof.
  intros Hp Hlen. unfold text_to_binary. rewrite Hp, bind_Ok.
  unfold to_bytes4. rewrite decide_True by lia. eexists. split; [reflexivity|].
  rewrite bind_Ok, <- bytes_to_bits_app, <- app_assoc. reflexivity.
Qed.

(** De-framing reads a framed payload back, whatever follows it. *)
Lemma binary_to_text_framed text payload len extra :
  Forall is_code_point text ->
  utf8_encode text = Ok payload ->
  to_bytes4 (Z.of_nat (length payload)) = Ok len ->
  binary_to_text
    ((_bytes_to_bits (MAGIC ++ len) ++ _bytes_to_bits payload) ++ extra) = Ok text.
Proof.
  intros Htext Hp Hlen.
  destruct (from_bytes_to_bytes4 _ _ Hlen) as (Hfrom & Hlen4 & Hlenb).
  destruct (utf8_decode_encode _ Htext _ Hp) as [Hdec Hpb].
  assert (Hhb : Forall is_byte (MAGIC ++ len)).
  { apply Forall_app. split; [|assumption].
    unfold is_byte, MAGIC. repeat (apply Forall_cons_2; [cbv beta; lia|]). constructor. }
  assert (Hhl : length (_bytes_to_bits (MAGIC ++ len)) = 64%nat).
  { rewrite bytes_to_bits_length, length_app, Hlen4. reflexivity. }
  unfold binary_to_text.
  rewrite slice_from_0. change (Z.to_nat HEADER_BITS) with 64%nat.
  rewrite <- app_assoc, (take_app_length' _ _ _ (eq_sym Hhl)).
  rewrite (bits_to_bytes_to_bits _ Hhb), bind_Ok.
  rewrite slice_from_0. change (Z.to_nat 4) with (length MAGIC).
  rewrite take_app_length. rewrite decide_False by (intros H; now apply H).
  change 4%nat with (length MAGIC). rewrite drop_app_length, Hfrom.
  unfold slice. change (Z.to_nat HEADER_BITS) with 64%nat.
  rewrite (drop_app_length' _ _ _ (eq_sym Hhl)).
  replace (Z.to_nat (HEADER_BITS + Z.of_nat (length payload) * 8 - HEADER_BITS))
    with (length (_bytes_to_bits payload))
    by (rewrite bytes_to_bits_length; lia).
  rewrite take_app_length, (bits_to_bytes_to_bits _ Hpb), bind_Ok.
  exact Hdec.
Qed.

(** C1. A text of code points that UTF-8 can encode, in fewer than 2^32
    bytes, is framed by [text_to_binary], and [binary_to_text] returns it
    from the framed bit string. *)
Theorem binary_to_text_text_to_binary (text payload : list Z) :
  Forall is_code_point text ->
  utf8_encode text = Ok payload ->
  Z.of_nat (length payload) < 2 ^ 32 ->
  exists bits, text_to_binary text = Ok bits /\ binary_to_text bits = Ok text.
Proof.
  intros Htext Hp Hlen.
  destruct (text_to_binary_Ok _ _ Hp Hlen) as (len & Hl & Hbits).
  eexists. split; [exact Hbits|].
  rewrite <- (app_nil_r (_ ++ _)).
  exact (binary_to_text_framed _ _ _ [] Htext Hp Hl).
Qed.

Lemma binary_to_text_text_to_binary_witness :
  exists bits,
    text_to_binary [104; 0x438; 0x20AC; 0x1F600] = Ok bits /\
    binary_to_text bits = Ok [104; 0x438; 0x20AC; 0x1F600].
Proof.
  apply (binary_to_text_text_to_binary [104; 0x438; 0x20AC; 0x1F600]
           [104; 208; 184; 226; 130; 172; 240; 159; 152; 128]).
  - repeat (apply Forall_cons_2; [unfold is_code_point; lia|]). constructor.
  - vm_compute. reflexivity.
  - vm_compute. reflexivity.
Defined.

(** A bit string whose length is not a multiple of 8 is rejected by the
    conversion of its header, which is how most short inputs fail. *)
Lemma binary_to_text_ragged_header binary :
  (length binary < 64)%nat -> (length binary `mod` 8 <> 0)%nat ->
  binary_to_text binary = Raise (ValueError BitCountNotMultipleOf8).
Proof.
  intros Hlen Hmod. unfold binary_to_text.
  rewrite slice_from_0, take_ge by (change (Z.to_nat HEADER_BITS) with 64%nat; lia).
  unfold _bits_to_bytes. now rewrite decide_True.
Qed.

(** C5. The 32 bits of the magic alone are shorter than a header, and
    [binary_to_text] returns the empty text for them instead of raising. *)
Theorem binary_to_text_short_header_returns :
  Forall is_bit (_bytes_to_bits MAGIC) /\
  length (_bytes_to_bits MAGIC) = 32%nat /\
  binary_to_text (_bytes_to_bits MAGIC) = Ok [].
Proof.
  split; [apply bytes_to_bits_bits|]. split; vm_compute; reflexivity.
Qed.

(** C6. A header that declares two payload bytes, followed by the eight
    bits of one byte only: [binary_to_text] returns the one-character text
    instead of raising. *)
Theorem binary_to_text_short_payload_returns :
  let binary := _bytes_to_bits (MAGIC ++ [0; 0; 0; 2] ++ [65]) in
  Forall is_bit binary /\
  _bits_to_bytes (slice binary 0 HEADER_BITS) = Ok (MAGIC ++ [0; 0; 0; 2]) /\
  from_bytes [0; 0; 0; 2] = 2 /\
  length (drop 64 binary) = 8%nat /\
  binary_to_text binary = Ok (asc "A").
Proof.
  cbv zeta. split; [apply bytes_to_bits_bits|].
  repeat split; vm_compute; reflexivity.
Qed.

(** ** The carrier: embedding *)

Lemma count_nil c : count c [] = 0%nat.
Proof. reflexivity. Qed.

Lemma count_cons_eq c s : count c (c :: s) = S (count c s).
Proof. unfold count. now rewrite filter_cons_True. Qed.

Lemma count_cons_ne c x s : x <> c -> count c (x :: s) = count c s.
Proof. intros H. unfold count. now rewrite filter_cons_False. Qed.

Lemma count_app c s t : count c (s ++ t) = (count c s + count c t)%nat.
Proof. unfold count. now rewrite filter_app, length_app. Qed.

Lemma count_absent c s : c ∉ s -> count c s = 0%nat.
Proof.
  induction s as [|x s IH]; [reflexivity|].
  rewrite not_elem_of_cons. intros [Hx Hs].
  rewrite count_cons_ne by congruence. auto.
Qed.

Lemma embed_nil carrier : embed [] carrier = carrier.
Proof.
  induction carrier as [|ch rest IH]; [reflexivity|].
  cbn [embed]. rewrite IH. now case_decide.
Qed.

Lemma embed_length bits carrier :
  (length bits <= count SPACE carrier)%nat ->
  length (embed bits carrier) = (length carrier + length bits)%nat.
Proof.
  revert bits. induction carrier as [|ch rest IH]; intros bits Hcap.
  - rewrite count_nil in Hcap. destruct bits; [reflexivity|cbn in Hcap; lia].
  - cbn [embed]. destruct (decide (ch = SPACE)) as [->|Hne].
    + rewrite count_cons_eq in Hcap. destruct bits as [|b bits].
      * rewrite embed_nil. cbn [length]. lia.
      * cbn [length] in *. rewrite IH by lia. lia.
    + rewrite count_cons_ne in Hcap by assumption.
      cbn [length]. rewrite IH by assumption. lia.
Qed.

Lemma embed_prefix b bits pre rest :
  SPACE ∉ pre ->
  embed (b :: bits) (pre ++ SPACE :: rest) = pre ++ SPACE :: marker b :: embed bits rest.
Proof.
  induction pre as [|x pre IH].
  - intros _. cbn [app embed]. now rewrite decide_True.
  - rewrite not_elem_of_cons. intros [Hx Hpre].
    cbn [app embed]. rewrite decide_False by congruence. now rewrite IH.
Qed.

Lemma hide_loop_cons secret ch container i out :
  hide_loop secret (ch :: container) i out =
  if decide (ch = SPACE /\ i < Z.of_nat (length secret)) then
    b ← getitem secret i;
    hide_loop secret container (i + 1)
      (out ++ [SPACE; if decide (b = DIGIT_0) then ZWS_0 else ZWNJ_1])
  else hide_loop secret container i (out ++ [ch]).
Proof. reflexivity. Qed.

(** The loop of [hide_text_in_container] started at bit [i] appends the
    embedding of the bits from [i] on. *)
Lemma hide_loop_spec secret container :
  forall (i : nat) out, (i <= length secret)%nat ->
  hide_loop secret container (Z.of_nat i) out
  = Ok (out ++ embed (drop i secret) container).
Proof.
  induction container as [|ch rest IH]; intros i out Hi.
  - cbn. now rewrite app_nil_r.
  - rewrite hide_loop_cons. cbn [embed].
    destruct (decide (ch = SPACE /\ Z.of_nat i < Z.of_nat (length secret)))
      as [[-> Hlt]|Hno].
    + destruct (lookup_lt_is_Some_2 secret i) as [b Hb]; [lia|].
      rewrite (getitem_Ok secret (Z.of_nat i) b) by (rewrite ?Nat2Z.id; auto; lia).
      rewrite bind_Ok, (drop_S _ _ _ Hb).
      destruct (decide (SPACE = SPACE)) as [_|]; [|congruence].
      replace (Z.of_nat i + 1) with (Z.of_nat (S i)) by lia.
      rewrite IH by (apply lookup_lt_Some in Hb; lia).
      rewrite <- app_assoc. reflexivity.
    + rewrite IH by assumption. rewrite <- app_assoc. cbn [app].
      destruct (decide (ch = SPACE)) as [->|Hne]; [|reflexivity].
      rewrite drop_ge; [reflexivity|]. apply Nat.nlt_ge. intros Hlt.
      apply Hno. split; [reflexivity|lia].
Qed.

Lemma hide_raises secret container :
  (length secret > count SPACE container)%nat ->
  hide_text_in_container secret container = Raise (ValueError ContainerTooSmall).
Proof.
  intros H. unfold hide_text_in_container, get_capacity. cbn [bits_capacity].
  now rewrite decide_True.
Qed.

Lemma hide_returns secret container :
  (length secret <= count SPACE container)%nat ->
  hide_text_in_container secret container = Ok (embed secret container).
Proof.
  intros H. unfold hide_text_in_container, get_capacity. cbn [bits_capacity].
  rewrite decide_False by lia. exact (hide_loop_spec secret container 0 [] (Nat.le_0_l _)).
Qed.

Lemma bit_marker_of_bit b : is_bit b -> bit_marker b = Some (marker b).
Proof. intros [->| ->]; reflexivity. Qed.

Lemma bit_marker_Some b m : bit_marker b = Some m -> m = marker b.
Proof.
  unfold bit_marker, marker. repeat case_decide; intros [= <-]; reflexivity.
Qed.

(** The embedding is the marked carrier the specification describes. *)
Lemma embed_Embedded bits :
  Forall is_bit bits ->
  forall carrier, (length bits <= count SPACE carrier)%nat ->
  Embedded bits carrier (embed bits carrier).
Proof.
  induction 1 as [|b bits Hb _ IH]; intros carrier Hcap.
  - rewrite embed_nil. constructor.
  - assert (Hin : SPACE ∈ carrier).
    { destruct (decide (SPACE ∈ carrier)) as [|Hno]; [assumption|].
      rewrite (count_absent _ _ Hno) in Hcap. cbn in Hcap. lia. }
    apply list_elem_of_split_l in Hin as (pre & rest & -> & Hpre).
    rewrite (embed_prefix _ _ _ _ Hpre).
    rewrite count_app, (count_absent _ _ Hpre), count_cons_eq in Hcap.
    cbn [length] in Hcap.
    constructor; [assumption|now apply bit_marker_of_bit|].
    apply IH. lia.
Qed.

Lemma Embedded_embed bits carrier out :
  Embedded bits carrier out ->
  out = embed bits carrier /\ (length bits <= count SPACE carrier)%nat.
Proof.
  induction 1 as [carrier|b bits pre rest m out Hpre Hm _ [-> Hcap]].
  - rewrite embed_nil. split; [reflexivity|cbn; lia].
  - rewrite (embed_prefix _ _ _ _ Hpre), (bit_marker_Some _ _ Hm).
    split; [reflexivity|].
    rewrite count_app, (count_absent _ _ Hpre), count_cons_eq. cbn [length]. lia.
Qed.

(** C4. [hide_text_in_container] raises exactly when the bit string is
    longer than the number of spaces of the carrier, and then returns
    nothing; otherwise it returns the carrier in which, bit after bit, the
    marker of the bit (U+200B for 0, U+200C for 1) follows the next space,
    every character of the carrier is kept in place, and nothing is added
    once the bits are used up. *)
Theorem hide_text_in_container_spec (bits carrier : list Z) :
  bits_capacity (get_capacity carrier) = count SPACE carrier /\
  (raises (hide_text_in_container bits carrier) <->
     (length bits > count SPACE carrier)%nat) /\
  ((length bits > count SPACE carrier)%nat ->
     hide_text_in_container bits carrier = Raise (ValueError ContainerTooSmall)) /\
  (Forall is_bit bits ->
     forall out, hide_text_in_container bits carrier = Ok out <->
                 Embedded bits carrier out).
Proof.
  split; [reflexivity|]. split; [|split].
  - split.
    + intros [e He]. destruct (decide (length bits > count SPACE carrier)%nat)
        as [|Hle]; [assumption|].
      rewrite hide_returns in He by lia. discriminate.
    + intros H. eexists. now apply hide_raises.
  - apply hide_raises.
  - intros Hbits out. split.
    + intros Hout.
      destruct (decide (length bits > count SPACE carrier)%nat) as [Hgt|Hle].
      * rewrite hide_raises in Hout by assumption. discriminate.
      * rewrite hide_returns in Hout by lia. injection Hout as <-.
        apply embed_Embedded; [assumption|lia].
    + intros Hemb. apply Embedded_embed in Hemb as [-> Hcap].
      now apply hide_returns.
Qed.

Lemma hide_text_in_container_spec_witness :
  hide_text_in_container (asc "0000000000") (asc "no_spaces_here")
    = Raise (ValueError ContainerTooSmall) /\
  Embedded (asc "01") (asc "a b  c")
    [97; 32; ZWS_0; 98; 32; ZWNJ_1; 32; 99].
Proof.
  split.
  - apply (hide_text_in_container_spec (asc "0000000000") (asc "no_spaces_here")).
    vm_compute. lia.
  - apply (hide_text_in_container_spec (asc "01") (asc "a b  c")).
    + repeat (apply Forall_cons_2; [vm_compute; auto|]). constructor.
    + vm_compute. reflexivity.
Defined.

(** The marker of bit [i] sits right after space [i] of the carrier, which
    the [i] markers before it have moved [i] places to the right. *)
Lemma embed_marker carrier :
  forall bits i p b,
  bits !! i = Some b -> nth_space carrier i p ->
  embed bits carrier !! (p + i)%nat = Some SPACE /\
  embed bits carrier !! S (p + i) = Some (marker b).
Proof.
  unfold nth_space.
  induction carrier as [|ch rest IH]; intros bits i p b Hb [Hp Hi].
  - rewrite lookup_nil in Hp. discriminate.
  - cbn [embed]. destruct p as [|p].
    + injection Hp as ->. rewrite take_0, count_nil in Hi. subst i.
      destruct bits as [|b0 bits]; [discriminate|]. injection Hb as ->.
      rewrite decide_True by reflexivity. split; reflexivity.
    + cbn [take] in Hi. change ((ch :: rest) !! S p) with (rest !! p) in Hp.
      destruct (decide (ch = SPACE)) as [->|Hne].
      * rewrite count_cons_eq in Hi. destruct i as [|i]; [discriminate|].
        injection Hi as Hi.
        destruct bits as [|b0 bits]; [discriminate|].
        change ((b0 :: bits) !! S i) with (bits !! i) in Hb.
        destruct (IH bits i p b Hb (conj Hp Hi)) as [H1 H2].
        replace (S p + S i)%nat with (S (S (p + i))) by lia.
        split; [exact H1|exact H2].
      * rewrite count_cons_ne in Hi by assumption.
        destruct (IH bits i p b Hb (conj Hp Hi)) as [H1 H2].
        split; [exact H1|exact H2].
Qed.

(** C10. With enough spaces [hide_text_in_container] accepts any secret
    string: the character after space number [i] of the carrier is the
    bit-0 marker when [secret[i]] is ['0'] and the bit-1 marker for every
    other character. *)
Theorem hide_text_in_container_any_secret (secret carrier : list Z) :
  (length secret <= count SPACE carrier)%nat ->
  exists stego,
    hide_text_in_container secret carrier = Ok stego /\
    forall (i p : nat) (b : Z),
      secret !! i = Some b -> nth_space carrier i p ->
      stego !! (p + i)%nat = Some SPACE /\
      stego !! S (p + i) = Some (if decide (b = DIGIT_0) then ZWS_0 else ZWNJ_1).
Proof.
  intros Hcap. exists (embed secret carrier).
  split; [now apply hide_returns|].
  intros i p b Hb Hp. exact (embed_marker carrier secret i p b Hb Hp).
Qed.

Lemma hide_text_in_container_any_secret_witness :
  exists stego,
    hide_text_in_container (asc "2x0") (asc "a b c d") = Ok stego /\
    forall (i p : nat) (b : Z),
      asc "2x0" !! i = Some b -> nth_space (asc "a b c d") i p ->
      stego !! (p + i)%nat = Some SPACE /\
      stego !! S (p + i) = Some (if decide (b = DIGIT_0) then ZWS_0 else ZWNJ_1).
Proof.
  apply (hide_text_in_container_any_secret (asc "2x0") (asc "a b c d")).
  vm_compute. lia.
Defined.

(** The characters ['2'] and ['x'] are embedded as bit 1. *)
Example hide_text_in_container_2x0 :
  hide_text_in_container (asc "2x0") (asc "a b c d")
  = Ok [97; 32; ZWNJ_1; 98; 32; ZWNJ_1; 99; 32; ZWS_0; 100].
Proof. vm_compute. reflexivity. Qed.

(** ** The carrier: extraction *)

Lemma extract_loop_unfold fuel container i bits :
  extract_loop fuel container i bits =
  if decide (i < Z.of_nat (length container) - 1) then
    match fuel with
    | O => None
    | S fuel' =>
      match getitem container i with
      | Raise e => Some (Raise e)
      | Ok c =>
        if decide (c = SPACE) then
          match getitem container (i + 1) with
          | Raise e => Some (Raise e)
          | Ok m =>
            if decide (m = ZWS_0) then
              extract_loop fuel' container (i + 2) (bits ++ [DIGIT_0])
            else if decide (m = ZWNJ_1) then
              extract_loop fuel' container (i + 2) (bits ++ [DIGIT_1])
            else extract_loop fuel' container (i + 1) bits
          end
        else extract_loop fuel' container (i + 1) bits
      end
    end
  else Some (Ok bits).
Proof. destruct fuel; reflexivity. Qed.

Lemma scan_short container : (length container <= 1)%nat -> scan container = [].
Proof. destruct container as [|c [|m rest]]; cbn; [reflexivity..|lia]. Qed.

Lemma scan_cons2 c m rest :
  scan (c :: m :: rest) =
  if decide (c = SPACE) then
    if decide (m = ZWS_0) then DIGIT_0 :: scan rest
    else if decide (m = ZWNJ_1) then DIGIT_1 :: scan rest
    else scan (m :: rest)
  else scan (m :: rest).
Proof. reflexivity. Qed.

Lemma scan_cons_other c rest : c <> SPACE -> scan (c :: rest) = scan rest.
Proof.
  intros Hc. destruct rest as [|m rest]; [reflexivity|].
  rewrite scan_cons2. now rewrite decide_False.
Qed.

(** With fuel for the characters left, the loop started at [i] returns the
    bits gathered so far followed by the scan of the rest. *)
Lemma extract_loop_spec container :
  forall fuel (i : nat) bits,
  (length container - i <= fuel)%nat ->
  extract_loop fuel container (Z.of_nat i) bits
  = Some (Ok (bits ++ scan (drop i container))).
Proof.
  induction fuel as [|fuel IH]; intros i bits Hfuel; rewrite extract_loop_unfold.
  - rewrite decide_False by lia.
    rewrite scan_short by (rewrite length_drop; lia). now rewrite app_nil_r.
  - destruct (decide (Z.of_nat i < Z.of_nat (length container) - 1)) as [Hlt|Hge].
    + destruct (lookup_lt_is_Some_2 container i) as [c Hc]; [lia|].
      destruct (lookup_lt_is_Some_2 container (S i)) as [m Hm]; [lia|].
      rewrite (getitem_Ok container (Z.of_nat i) c) by (rewrite ?Nat2Z.id; auto; lia).
      rewrite (drop_S _ _ _ Hc), (drop_S _ _ _ Hm), scan_cons2.
      rewrite <- (drop_S _ _ _ Hm).
      replace (Z.of_nat i + 1) with (Z.of_nat (S i)) by lia.
      replace (Z.of_nat i + 2) with (Z.of_nat (S (S i))) by lia.
      destruct (decide (c = SPACE)) as [_|_]; [|apply IH; lia].
      rewrite (getitem_Ok container (Z.of_nat (S i)) m)
        by (rewrite ?Nat2Z.id; auto; lia).
      destruct (decide (m = ZWS_0)) as [_|_].
      { rewrite IH by lia. now rewrite <- app_assoc. }
      destruct (decide (m = ZWNJ_1)) as [_|_].
      { rewrite IH by lia. now rewrite <- app_assoc. }
      apply IH. lia.
    + rewrite scan_short by (rewrite length_drop; lia). now rewrite app_nil_r.
Qed.

Lemma extract_scan container :
  extract_text_from_container container = Some (Ok (scan container)).
Proof.
  unfold extract_text_from_container.
  exact (extract_loop_spec container (length container) 0 [] ltac:(lia)).
Qed.

Lemma has_marked_space_cons c rest :
  has_marked_space (c :: rest) <->
  (c = SPACE /\ (rest !! 0%nat = Some ZWS_0 \/ rest !! 0%nat = Some ZWNJ_1)) \/
  has_marked_space rest.
Proof.
  unfold has_marked_space. split.
  - intros [[|i] [H1 H2]].
    + left. injection H1 as ->. split; [reflexivity|exact H2].
    + right. exists i. split; [exact H1|exact H2].
  - intros [[-> H]|[i [H1 H2]]].
    + exists 0%nat. split; [reflexivity|exact H].
    + exists (S i). split; [exact H1|exact H2].
Qed.

(** The scan finds nothing exactly when no space is followed by a marker. *)
Lemma scan_nil_iff container : scan container = [] <-> ~ has_marked_space container.
Proof.
  induction container as [|c rest IH].
  - split; [|reflexivity]. intros _ [i [H _]]. rewrite lookup_nil in H. discriminate.
  - rewrite has_marked_space_cons. destruct rest as [|m rest].
    + split; [|reflexivity]. intros _ [[_ [H|H]]|[i [H _]]]; discriminate.
    + rewrite scan_cons2. change ((m :: rest) !! 0%nat) with (Some m).
      destruct (decide (c = SPACE)) as [Hc|Hc].
      * destruct (decide (m = ZWS_0)) as [Hm|Hm].
        { split; [discriminate|]. intros H. exfalso. apply H. left. subst. auto. }
        destruct (decide (m = ZWNJ_1)) as [Hm'|Hm'].
        { split; [discriminate|]. intros H. exfalso. apply H. left. subst. auto. }
        rewrite IH. split.
        -- intros H [[_ [[= E]|[= E]]]|H']; auto.
        -- intros H H'. apply H. now right.
      * rewrite IH. split.
        -- intros H [[E _]|H']; auto.
        -- intros H H'. apply H. now right.
Qed.

Lemma scan_bits_cons container :
  Forall is_bit (scan container) /\ forall c, Forall is_bit (scan (c :: container)).
Proof.
  induction container as [|m rest [IHa IHb]].
  - split; [constructor|]. intros c. constructor.
  - split; [apply IHb|]. intros c. rewrite scan_cons2.
    repeat case_decide; try apply IHb;
      (apply Forall_cons_2; [unfold is_bit; auto|exact IHa]).
Qed.

Lemma scan_bits container : Forall is_bit (scan container).
Proof. apply scan_bits_cons. Qed.

(** C9. [extract_text_from_container] returns a bit string for every
    input, and the empty one exactly when no space of the input is
    immediately followed by one of the two markers. *)
Theorem extract_text_from_container_total (container : list Z) :
  exists bits,
    extract_text_from_container container = Some (Ok bits) /\
    Forall is_bit bits /\
    (bits = [] <-> ~ has_marked_space container).
Proof.
  exists (scan container). split; [apply extract_scan|]. split.
  - apply scan_bits.
  - apply scan_nil_iff.
Qed.

(** ** Hiding and extracting *)

Lemma marker_cases b :
  (marker b = ZWS_0 /\ digit_read b = DIGIT_0) \/
  (marker b = ZWNJ_1 /\ digit_read b = DIGIT_1).
Proof. unfold marker, digit_read. case_decide; auto. Qed.

Lemma scan_marked b rest :
  scan (SPACE :: marker b :: rest) = digit_read b :: scan rest.
Proof.
  rewrite scan_cons2, decide_True by reflexivity.
  destruct (marker_cases b) as [[-> ->]|[-> ->]]; reflexivity.
Qed.

Lemma after_spaces_0 carrier : after_spaces 0 carrier = carrier.
Proof. now destruct carrier. Qed.

(** Scanning a marked carrier reads the digits of the secret, then
    whatever the scan finds after the last space that was used. *)
Lemma scan_embed carrier :
  forall bits, (length bits <= count SPACE carrier)%nat ->
  scan (embed bits carrier)
  = (digit_read <$> bits) ++ scan (after_spaces (length bits) carrier).
Proof.
  induction carrier as [|ch rest IH]; intros bits Hcap.
  - rewrite count_nil in Hcap. destruct bits; [reflexivity|cbn in Hcap; lia].
  - destruct bits as [|b bits].
    { now rewrite embed_nil, after_spaces_0. }
    cbn [embed after_spaces length]. destruct (decide (ch = SPACE)) as [->|Hne].
    + rewrite count_cons_eq in Hcap. cbn [length] in Hcap.
      rewrite scan_marked, IH by lia. reflexivity.
    + rewrite count_cons_ne in Hcap by assumption.
      rewrite scan_cons_other by assumption. apply IH. exact Hcap.
Qed.

Lemma digit_read_bits bits : Forall is_bit bits -> digit_read <$> bits = bits.
Proof.
  induction 1 as [|b bits [->| ->] _ IH]; [reflexivity|..];
    cbn [fmap list_fmap]; f_equal; exact IH.
Qed.

Lemma text_to_binary_inv text bits :
  text_to_binary text = Ok bits ->
  exists payload len,
    utf8_encode text = Ok payload /\
    to_bytes4 (Z.of_nat (length payload)) = Ok len /\
    bits = _bytes_to_bits (MAGIC ++ len) ++ _bytes_to_bits payload.
Proof.
  unfold text_to_binary.
  destruct (utf8_encode text) as [payload|] eqn:Hp; [|discriminate].
  rewrite bind_Ok.
  destruct (to_bytes4 (Z.of_nat (length payload))) as [len|] eqn:Hl; [|discriminate].
  rewrite bind_Ok. intros [= <-]. exists payload, len.
  split; [reflexivity|]. split; [exact Hl|].
  rewrite <- bytes_to_bits_app. reflexivity.
Qed.

Lemma text_to_binary_bits text bits :
  text_to_binary text = Ok bits -> Forall is_bit bits.
Proof.
  intros (payload & len & _ & _ & ->)%text_to_binary_inv.
  apply Forall_app. split; apply bytes_to_bits_bits.
Qed.

Lemma after_spaces_suffix n carrier : after_spaces n carrier `suffix_of` carrier.
Proof.
  revert n. induction carrier as [|ch rest IH]; intros n; [reflexivity|].
  destruct n as [|n]; [reflexivity|]. cbn [after_spaces].
  case_decide; apply suffix_cons_r, IH.
Qed.

Lemma has_marked_space_marker container :
  has_marked_space container -> ZWS_0 ∈ container \/ ZWNJ_1 ∈ container.
Proof.
  intros (i & _ & [H|H]); [left|right]; apply list_elem_of_lookup; eauto.
Qed.

Lemma unmarked_after_spaces n carrier :
  ZWS_0 ∉ carrier -> ZWNJ_1 ∉ carrier ->
  ~ has_marked_space (after_spaces n carrier).
Proof.
  intros H0 H1 H. destruct (after_spaces_suffix n carrier) as [pre Hpre].
  apply has_marked_space_marker in H as [H|H]; [apply H0|apply H1];
    rewrite Hpre; apply elem_of_app; now right.
Qed.

(** C3 as the code has it. For a text that [text_to_binary] frames and a
    carrier with at least as many spaces as the frame has bits, extraction
    from the marked carrier returns the frame followed by what extraction
    reads after the last space used; that is the frame itself exactly when
    no later space of the carrier is followed by a marker, as in every
    carrier without marker characters; and [binary_to_text] returns the
    text from the extracted bits in every case. *)
Theorem extract_hide_framed (text bits carrier : list Z) :
  Forall is_code_point text ->
  text_to_binary text = Ok bits ->
  (length bits <= count SPACE carrier)%nat ->
  exists stego extra,
    hide_text_in_container bits carrier = Ok stego /\
    extract_text_from_container (after_spaces (length bits) carrier)
      = Some (Ok extra) /\
    extract_text_from_container stego = Some (Ok (bits ++ extra)) /\
    (extract_text_from_container stego = Some (Ok bits) <->
       ~ has_marked_space (after_spaces (length bits) carrier)) /\
    (ZWS_0 ∉ carrier -> ZWNJ_1 ∉ carrier ->
       extract_text_from_container stego = Some (Ok bits)) /\
    binary_to_text (bits ++ extra) = Ok text.
Proof.
  intros Htext Hbits Hcap.
  pose proof (text_to_binary_bits _ _ Hbits) as Hb.
  exists (embed bits carrier), (scan (after_spaces (length bits) carrier)).
  assert (Hex : extract_text_from_container (embed bits carrier)
                = Some (Ok (bits ++ scan (after_spaces (length bits) carrier)))).
  { rewrite extract_scan, (scan_embed _ _ Hcap), (digit_read_bits _ Hb).
    reflexivity. }
  assert (Hiff : extract_text_from_container (embed bits carrier) = Some (Ok bits)
                 <-> ~ has_marked_space (after_spaces (length bits) carrier)).
  { rewrite Hex, <- scan_nil_iff. split.
    - intros [= H]. apply (app_inv_head bits). now rewrite app_nil_r.
    - intros ->. now rewrite app_nil_r. }
  split; [now apply hide_returns|]. split; [apply extract_scan|].
  split; [exact Hex|]. split; [exact Hiff|]. split.
  - intros H0 H1. apply Hiff. now apply unmarked_after_spaces.
  - apply text_to_binary_inv in Hbits as (payload & len & Hp & Hl & ->).
    now apply binary_to_text_framed.
Qed.

Lemma extract_hide_framed_witness :
  exists stego extra,
    hide_text_in_container empty_frame premarked_carrier = Ok stego /\
    extract_text_from_container (after_spaces (length empty_frame) premarked_carrier)
      = Some (Ok extra) /\
    extract_text_from_container stego = Some (Ok (empty_frame ++ extra)) /\
    (extract_text_from_container stego = Some (Ok empty_frame) <->
       ~ has_marked_space (after_spaces (length empty_frame) premarked_carrier)) /\
    (ZWS_0 ∉ premarked_carrier -> ZWNJ_1 ∉ premarked_carrier ->
       extract_text_from_container stego = Some (Ok empty_frame)) /\
    binary_to_text (empty_frame ++ extra) = Ok [].
Proof.
  apply (extract_hide_framed [] empty_frame premarked_carrier).
  - constructor.
  - vm_compute. reflexivity.
  - vm_compute. lia.
Defined.

(** The frame of the empty text hidden in a carrier of 65 spaces whose
    last space is already followed by a marker: the capacity suffices, and
    extraction returns one bit more than the frame. *)
Lemma extract_hide_frame_counterexample :
  text_to_binary [] = Ok empty_frame /\
  (length empty_frame <= count SPACE premarked_carrier)%nat /\
  exists stego,
    hide_text_in_container empty_frame premarked_carrier = Ok stego /\
    extract_text_from_container stego = Some (Ok (empty_frame ++ [DIGIT_0])) /\
    extract_text_from_container stego <> Some (Ok empty_frame).
Proof.
  split; [vm_compute; reflexivity|]. split; [vm_compute; lia|].
  eexists. split; [vm_compute; reflexivity|].
  split; [vm_compute; reflexivity|]. vm_compute. discriminate.
Qed.

(** ** The vectors of the test-suite, run on the embedding *)

Example test_vigenere_known_vectors :
  vigenere_encrypt (asc "ABC") (asc "B") = Ok (asc "BCD") /\
  vigenere_encrypt (asc "A-B C!") (asc "B") = Ok (asc "B-C D!") /\
  vigenere_decrypt (asc "BCD") (asc "B") = Ok (asc "ABC").
Proof. repeat split; vm_compute; reflexivity. Qed.

Example test_get_capacity :
  bits_capacity (get_capacity (asc "a b  c   ")) = 6%nat /\
  spaces (get_capacity (asc "no_spaces")) = 0%nat.
Proof. split; vm_compute; reflexivity. Qed.

Example test_extract :
  extract_text_from_container
    ([88; 32; ZWS_0; 89; 32; ZWNJ_1; 90]) = Some (Ok (asc "01")) /\
  extract_text_from_container (asc "X Y Z") = Some (Ok []).
Proof. split; vm_compute; reflexivity. Qed.

Example test_too_short_header :
  binary_to_text (replicate 63 DIGIT_0) = Raise (ValueError BitCountNotMultipleOf8).
Proof. vm_compute. reflexivity. Qed.

Example test_magic_mismatch :
  binary_to_text (_bytes_to_bits ([165; 87; 83; 84; 0; 0; 0; 1; 104]))
  = Raise (ValueError BadFormat).
Proof. vm_compute. reflexivity. Qed.

(** * Further properties *)

(** ** The cipher, position by position *)

Lemma letters_before_0 text : letters_before text 0 = 0%nat.
Proof. reflexivity. Qed.

Lemma letters_before_S_in ch text i :
  ch ∈ LETTERS -> letters_before (ch :: text) (S i) = S (letters_before text i).
Proof.
  intros H. unfold letters_before. cbn [take].
  now rewrite filter_cons_True.
Qed.

Lemma letters_before_S_out ch text i :
  ch ∉ LETTERS -> letters_before (ch :: text) (S i) = letters_before text i.
Proof.
  intros H. unfold letters_before. cbn [take].
  now rewrite filter_cons_False.
Qed.

Section cipher_positions.
Variable kf : list Z.
Hypothesis kf_nonempty : kf <> [].
Hypothesis kf_letters : Forall (fun kc => is_Some (index !! kc)) kf.

(** The key letter in use after [j] letters of the text, and its shift. *)
Lemma key_letter_at (j : Z) :
  0 <= j ->
  exists kc shift,
    kf !! Z.to_nat (j mod Z.of_nat (length kf)) = Some kc /\
    index !! kc = Some shift /\
    pymod j (Z.of_nat (length kf)) = Ok (j mod Z.of_nat (length kf)) /\
    getitem kf (j mod Z.of_nat (length kf)) = Ok kc.
Proof using kf_nonempty kf_letters.
  intros Hj. assert (Hlen : 0 < Z.of_nat (length kf)).
  { destruct kf; [congruence|rewrite length_cons; lia]. }
  pose proof (Z.mod_pos_bound j _ Hlen) as Hk.
  destruct (lookup_lt_is_Some_2 kf (Z.to_nat (j mod Z.of_nat (length kf))))
    as [kc Hkc]; [lia|].
  rewrite List.Forall_forall in kf_letters.
  destruct (kf_letters kc) as [shift Hs].
  { apply list_elem_of_In, list_elem_of_lookup. eauto. }
  exists kc, shift. repeat split; try assumption.
  - unfold pymod. now rewrite decide_False by lia.
  - apply getitem_Ok; [lia|assumption].
Qed.

(** What [encrypt_loop] appends: as many characters as the text has; a
    character outside the alphabet is copied; a letter is moved forward by
    the shift of the key letter selected by the number of letters met. *)
Lemma encrypt_loop_positions text :
  forall key_i out, 0 <= key_i ->
  exists c,
    encrypt_loop kf index 71 text key_i out = Ok (out ++ c) /\
    length c = length text /\
    forall (i : nat) ch, text !! i = Some ch ->
      (ch ∉ LETTERS -> c !! i = Some ch) /\
      (forall c0, index !! ch = Some c0 ->
         exists kc shift,
           kf !! Z.to_nat ((key_i + Z.of_nat (letters_before text i))
                           mod Z.of_nat (length kf)) = Some kc /\
           index !! kc = Some shift /\
           is_Some (c !! i) /\
           c !! i = LETTERS !! Z.to_nat ((c0 + shift) mod 71)).
Proof using kf_nonempty kf_letters.
  induction text as [|ch0 text IH]; intros key_i out Hi.
  - exists []. rewrite app_nil_r. split; [reflexivity|]. split; [reflexivity|].
    intros i ch H. rewrite lookup_nil in H. discriminate.
  - rewrite encrypt_loop_cons.
    destruct (decide (is_Some (index !! ch0))) as [[c0 Hc0]|Hno].
    + destruct (key_letter_at key_i Hi) as (kc & shift & Hkc & Hs & Hmod & Hget).
      destruct (index_lookup _ _ Hs) as (Hsr & _ & _).
      pose proof (Z.mod_pos_bound (c0 + shift) 71 eq_refl) as Hj.
      destruct (index_of_letter _ Hj) as (e & Hle & Hie).
      destruct (IH (key_i + 1) (out ++ [e])) as (c & Henc & Hlen & Hpos); [lia|].
      exists (e :: c). split; [|split].
      * rewrite Hmod, bind_Ok, Hget, bind_Ok.
        rewrite (dict_getitem_Ok _ _ Hs), bind_Ok.
        rewrite (dict_getitem_Ok _ _ Hc0), bind_Ok, pymod_71, bind_Ok.
        rewrite (getitem_Ok _ _ _ (proj1 Hj) Hle), bind_Ok.
        rewrite Henc, <- app_assoc. reflexivity.
      * cbn [length]. now rewrite Hlen.
      * assert (Hin0 : ch0 ∈ LETTERS) by (apply index_dom; eauto).
        intros [|i] ch Hch.
        -- injection Hch as <-. split; [contradiction|].
           intros c1 Hc1. rewrite Hc0 in Hc1. injection Hc1 as <-.
           exists kc, shift. rewrite letters_before_0, Z.add_0_r.
           repeat split; try assumption; [eexists; reflexivity|].
           cbn [lookup list_lookup]. now rewrite Hle.
        -- change ((ch0 :: text) !! S i) with (text !! i) in Hch.
           destruct (Hpos i ch Hch) as [Hout Hin]. split; [exact Hout|].
           intros c1 Hc1. destruct (Hin c1 Hc1) as (kc' & s' & H1 & H2 & H3 & H4).
           exists kc', s'. rewrite (letters_before_S_in _ _ _ Hin0).
           replace (key_i + Z.of_nat (S (letters_before text i)))
             with (key_i + 1 + Z.of_nat (letters_before text i)) by lia.
           repeat split; assumption.
    + destruct (IH key_i (out ++ [ch0])) as (c & Henc & Hlen & Hpos); [lia|].
      assert (Hout0 : ch0 ∉ LETTERS) by (now rewrite <- index_dom).
      exists (ch0 :: c). split; [|split].
      * rewrite Henc, <- app_assoc. reflexivity.
      * cbn [length]. now rewrite Hlen.
      * intros [|i] ch Hch.
        -- injection Hch as <-. split; [reflexivity|].
           intros c1 Hc1. exfalso. apply Hno. eauto.
        -- change ((ch0 :: text) !! S i) with (text !! i) in Hch.
           destruct (Hpos i ch Hch) as [Hout Hin]. split; [exact Hout|].
           intros c1 Hc1. destruct (Hin c1 Hc1) as (kc' & s' & H1 & H2 & H3 & H4).
           exists kc', s'. rewrite (letters_before_S_out _ _ _ Hout0).
           repeat split; assumption.
Qed.

(** The same for [decrypt_loop], the shift taken backwards. *)
Lemma decrypt_loop_positions text :
  forall key_i out, 0 <= key_i ->
  exists c,
    decrypt_loop kf index 71 text key_i out = Ok (out ++ c) /\
    length c = length text /\
    forall (i : nat) ch, text !! i = Some ch ->
      (ch ∉ LETTERS -> c !! i = Some ch) /\
      (forall c0, index !! ch = Some c0 ->
         exists kc shift,
           kf !! Z.to_nat ((key_i + Z.of_nat (letters_before text i))
                           mod Z.of_nat (length kf)) = Some kc /\
           index !! kc = Some shift /\
           is_Some (c !! i) /\
           c !! i = LETTERS !! Z.to_nat ((c0 - shift) mod 71)).
Proof using kf_nonempty kf_letters.
  induction text as [|ch0 text IH]; intros key_i out Hi.
  - exists []. rewrite app_nil_r. split; [reflexivity|]. split; [reflexivity|].
    intros i ch H. rewrite lookup_nil in H. discriminate.
  - rewrite decrypt_loop_cons.
    destruct (decide (is_Some (index !! ch0))) as [[c0 Hc0]|Hno].
    + destruct (key_letter_at key_i Hi) as (kc & shift & Hkc & Hs & Hmod & Hget).
      destruct (index_lookup _ _ Hs) as (Hsr & _ & _).
      pose proof (Z.mod_pos_bound (c0 - shift) 71 eq_refl) as Hj.
      destruct (index_of_letter _ Hj) as (e & Hle & Hie).
      destruct (IH (key_i + 1) (out ++ [e])) as (c & Henc & Hlen & Hpos); [lia|].
      exists (e :: c). split; [|split].
      * rewrite Hmod, bind_Ok, Hget, bind_Ok.
        rewrite (dict_getitem_Ok _ _ Hs), bind_Ok.
        rewrite (dict_getitem_Ok _ _ Hc0), bind_Ok, pymod_71, bind_Ok.
        rewrite (getitem_Ok _ _ _ (proj1 Hj) Hle), bind_Ok.
        rewrite Henc, <- app_assoc. reflexivity.
      * cbn [length]. now rewrite Hlen.
      * assert (Hin0 : ch0 ∈ LETTERS) by (apply index_dom; eauto).
        intros [|i] ch Hch.
        -- injection Hch as <-. split; [contradiction|].
           intros c1 Hc1. rewrite Hc0 in Hc1. injection Hc1 as <-.
           exists kc, shift. rewrite letters_before_0, Z.add_0_r.
           repeat split; try assumption; [eexists; reflexivity|].
           cbn [lookup list_lookup]. now rewrite Hle.
        -- change ((ch0 :: text) !! S i) with (text !! i) in Hch.
           destruct (Hpos i ch Hch) as [Hout Hin]. split; [exact Hout|].
           intros c1 Hc1. destruct (Hin c1 Hc1) as (kc' & s' & H1 & H2 & H3 & H4).
           exists kc', s'. rewrite (letters_before_S_in _ _ _ Hin0).
           replace (key_i + Z.of_nat (S (letters_before text i)))
             with (key_i + 1 + Z.of_nat (letters_before text i)) by lia.
           repeat split; assumption.
    + destruct (IH key_i (out ++ [ch0])) as (c & Henc & Hlen & Hpos); [lia|].
      assert (Hout0 : ch0 ∉ LETTERS) by (now rewrite <- index_dom).
      exists (ch0 :: c). split; [|split].
      * rewrite Henc, <- app_assoc. reflexivity.
      * cbn [length]. now rewrite Hlen.
      * intros [|i] ch Hch.
        -- injection Hch as <-. split; [reflexivity|].
           intros c1 Hc1. exfalso. apply Hno. eauto.
        -- change ((ch0 :: text) !! S i) with (text !! i) in Hch.
           destruct (Hpos i ch Hch) as [Hout Hin]. split; [exact Hout|].
           intros c1 Hc1. destruct (Hin c1 Hc1) as (kc' & s' & H1 & H2 & H3 & H4).
           exists kc', s'. rewrite (letters_before_S_out _ _ _ Hout0).
           repeat split; assumption.
Qed.

(** Decrypting and then encrypting from the same key position gives the
    text back. *)
Lemma roundtrip_loop_back text :
  Forall upper_fixed text ->
  forall key_i out out', 0 <= key_i ->
  exists c,
    decrypt_loop kf index 71 text key_i out = Ok (out ++ c) /\
    Forall upper_fixed c /\
    encrypt_loop kf index 71 c key_i out' = Ok (out' ++ text).
Proof using kf_nonempty kf_letters.
  induction 1 as [|ch text Hch _ IH]; intros key_i out out' Hi.
  - exists []. rewrite !app_nil_r. repeat split. constructor.
  - rewrite decrypt_loop_cons.
    destruct (decide (is_Some (index !! ch))) as [[c0 Hc0]|Hno].
    + destruct (shift_at kf kf_nonempty kf_letters key_i Hi)
        as (k & kc & shift & Hk & Hkc & Hs & Hsr).
      destruct (index_lookup _ _ Hc0) as (Hc0r & Hl0 & _).
      pose proof (Z.mod_pos_bound (c0 - shift) 71 eq_refl) as Hj.
      destruct (index_of_letter _ Hj) as (e & Hle & Hie).
      destruct (index_lookup _ _ Hie) as (_ & _ & He).
      destruct (IH (key_i + 1) (out ++ [e]) (out' ++ [ch]))
        as (c & Hdec & Hfix & Henc); [lia|].
      exists (e :: c). split; [|split].
      * rewrite Hk, bind_Ok, Hkc, bind_Ok, Hs, bind_Ok.
        rewrite (dict_getitem_Ok _ _ Hc0), bind_Ok, pymod_71, bind_Ok.
        rewrite (getitem_Ok _ _ _ (proj1 Hj) Hle), bind_Ok.
        rewrite Hdec, <- app_assoc. reflexivity.
      * constructor; assumption.
      * rewrite encrypt_loop_cons, decide_True by eauto.
        rewrite Hk, bind_Ok, Hkc, bind_Ok, Hs, bind_Ok.
        rewrite (dict_getitem_Ok _ _ Hie), bind_Ok, pymod_71, bind_Ok.
        assert (Hback : ((c0 - shift) mod 71 + shift) mod 71 = c0).
        { rewrite Zplus_mod_idemp_l.
          replace (c0 - shift + shift) with c0 by lia.
          apply Z.mod_small. lia. }
        rewrite Hback, (getitem_Ok _ _ _ (proj1 Hc0r) Hl0), bind_Ok.
        rewrite Henc, <- app_assoc. reflexivity.
    + destruct (IH key_i (out ++ [ch]) (out' ++ [ch]))
        as (c & Hdec & Hfix & Henc); [lia|].
      exists (ch :: c). split; [|split].
      * rewrite Hdec, <- app_assoc. reflexivity.
      * constructor; assumption.
      * rewrite encrypt_loop_cons, decide_False by assumption.
        rewrite Henc, <- app_assoc. reflexivity.
Qed.
End cipher_positions.

Lemma mod_to_nat (j : nat) (n : nat) :
  Z.to_nat ((0 + Z.of_nat j) mod Z.of_nat n) = (j `mod` n)%nat.
Proof. rewrite Z.add_0_l, <- Nat2Z.inj_mod. apply Nat2Z.id. Qed.

Lemma shift_forward_nat c0 shift :
  0 <= c0 < 71 -> 0 <= shift < 71 ->
  Z.to_nat ((c0 + shift) mod 71) = ((Z.to_nat c0 + Z.to_nat shift) `mod` 71)%nat.
Proof.
  intros. rewrite <- (Z2Nat.id c0) at 1 by lia.
  rewrite <- (Z2Nat.id shift) at 1 by lia.
  rewrite <- Nat2Z.inj_add. change 71 with (Z.of_nat 71).
  rewrite <- Nat2Z.inj_mod. apply Nat2Z.id.
Qed.

Lemma shift_back_nat c0 shift :
  0 <= c0 < 71 -> 0 <= shift < 71 ->
  Z.to_nat ((c0 - shift) mod 71)
  = ((Z.to_nat c0 + 71 - Z.to_nat shift) `mod` 71)%nat.
Proof.
  intros. replace ((c0 - shift) mod 71) with ((c0 + 71 - shift) mod 71).
  2:{ replace (c0 + 71 - shift) with (c0 - shift + 1 * 71) by lia.
      apply Z.mod_add. lia. }
  replace (c0 + 71 - shift)
    with (Z.of_nat (Z.to_nat c0 + 71 - Z.to_nat shift)) by lia.
  change (_ mod 71)
    with (Z.of_nat (Z.to_nat c0 + 71 - Z.to_nat shift) mod Z.of_nat 71).
  rewrite <- Nat2Z.inj_mod. apply Nat2Z.id.
Qed.

(** X1. Where [vigenere_encrypt] returns, the cipher text has the length
    of the upper-cased text; a character outside the alphabet stays where
    it is, and a letter at position [c0] of the alphabet becomes the letter
    at position [(c0 + s) mod 71], [s] being the position of the key letter
    selected by the number of letters before it: the key advances on
    letters only. *)
Theorem vigenere_encrypt_positions (text key enc : list Z) :
  vigenere_encrypt text key = Ok enc ->
  let kf := filter (fun ch => ch ∈ LETTERS) (upper key) in
  length enc = length (upper text) /\
  forall (i : nat) ch, upper text !! i = Some ch ->
    (ch ∉ LETTERS -> enc !! i = Some ch) /\
    (ch ∈ LETTERS ->
       exists (c0 s : nat) kc e,
         LETTERS !! c0 = Some ch /\
         kf !! (letters_before (upper text) i `mod` length kf)%nat = Some kc /\
         LETTERS !! s = Some kc /\
         LETTERS !! ((c0 + s) `mod` 71)%nat = Some e /\
         enc !! i = Some e).
Proof.
  intros Henc kf. subst kf. rewrite <- key_filtered_spec.
  destruct (decide (key_filtered key = [])) as [Hk|Hk].
  { destruct (vigenere_encrypt_invalid text key Hk) as [m Hm]. congruence. }
  rewrite vigenere_encrypt_valid in Henc by assumption.
  destruct (encrypt_loop_positions (key_filtered key) Hk (key_filtered_letters key)
              (upper text) 0 []) as (c & Hc & Hlen & Hpos); [lia|].
  rewrite Hc in Henc. injection Henc as <-.
  split; [exact Hlen|]. intros i ch Hch.
  destruct (Hpos i ch Hch) as [Hout Hin]. split; [exact Hout|].
  intros Hl. apply index_dom in Hl as [c0 Hc0].
  destruct (Hin c0 Hc0) as (kc & shift & Hkc & Hs & [e He] & Hget).
  destruct (index_lookup _ _ Hc0) as (Hr0 & Hl0 & _).
  destruct (index_lookup _ _ Hs) as (Hrs & Hls & _).
  exists (Z.to_nat c0), (Z.to_nat shift), kc, e.
  rewrite mod_to_nat in Hkc. repeat split; try assumption.
  rewrite He in Hget. rewrite Hget. f_equal.
  symmetry. now apply shift_forward_nat.
Qed.

Lemma vigenere_encrypt_positions_witness :
  let kf := filter (fun ch => ch ∈ LETTERS) (upper (asc "b")) in
  length (asc "B-C D!") = length (upper (asc "A-b c!")) /\
  forall (i : nat) ch, upper (asc "A-b c!") !! i = Some ch ->
    (ch ∉ LETTERS -> asc "B-C D!" !! i = Some ch) /\
    (ch ∈ LETTERS ->
       exists (c0 s : nat) kc e,
         LETTERS !! c0 = Some ch /\
         kf !! (letters_before (upper (asc "A-b c!")) i `mod` length kf)%nat = Some kc /\
         LETTERS !! s = Some kc /\
         LETTERS !! ((c0 + s) `mod` 71)%nat = Some e /\
         asc "B-C D!" !! i = Some e).
Proof.
  apply (vigenere_encrypt_positions (asc "A-b c!") (asc "b") (asc "B-C D!")).
  vm_compute. reflexivity.
Defined.

(** X2. The same for [vigenere_decrypt], the letter moved back:
    position [(c0 - s) mod 71]. *)
Theorem vigenere_decrypt_positions (text key dec : list Z) :
  vigenere_decrypt text key = Ok dec ->
  let kf := filter (fun ch => ch ∈ LETTERS) (upper key) in
  length dec = length (upper text) /\
  forall (i : nat) ch, upper text !! i = Some ch ->
    (ch ∉ LETTERS -> dec !! i = Some ch) /\
    (ch ∈ LETTERS ->
       exists (c0 s : nat) kc d,
         LETTERS !! c0 = Some ch /\
         kf !! (letters_before (upper text) i `mod` length kf)%nat = Some kc /\
         LETTERS !! s = Some kc /\
         LETTERS !! ((c0 + 71 - s) `mod` 71)%nat = Some d /\
         dec !! i = Some d).
Proof.
  intros Hdec kf. subst kf. rewrite <- key_filtered_spec.
  destruct (decide (key_filtered key = [])) as [Hk|Hk].
  { destruct (vigenere_decrypt_invalid text key Hk) as [m Hm]. congruence. }
  rewrite vigenere_decrypt_valid in Hdec by assumption.
  destruct (decrypt_loop_positions (key_filtered key) Hk (key_filtered_letters key)
              (upper text) 0 []) as (c & Hc & Hlen & Hpos); [lia|].
  rewrite Hc in Hdec. injection Hdec as <-.
  split; [exact Hlen|]. intros i ch Hch.
  destruct (Hpos i ch Hch) as [Hout Hin]. split; [exact Hout|].
  intros Hl. apply index_dom in Hl as [c0 Hc0].
  destruct (Hin c0 Hc0) as (kc & shift & Hkc & Hs & [e He] & Hget).
  destruct (index_lookup _ _ Hc0) as (Hr0 & Hl0 & _).
  destruct (index_lookup _ _ Hs) as (Hrs & Hls & _).
  exists (Z.to_nat c0), (Z.to_nat shift), kc, e.
  rewrite mod_to_nat in Hkc. repeat split; try assumption.
  rewrite He in Hget. rewrite Hget. f_equal.
  symmetry. now apply shift_back_nat.
Qed.

Lemma vigenere_decrypt_positions_witness :
  let kf := filter (fun ch => ch ∈ LETTERS) (upper (asc "b")) in
  length (asc "A-B C!") = length (upper (asc "b-c d!")) /\
  forall (i : nat) ch, upper (asc "b-c d!") !! i = Some ch ->
    (ch ∉ LETTERS -> asc "A-B C!" !! i = Some ch) /\
    (ch ∈ LETTERS ->
       exists (c0 s : nat) kc d,
         LETTERS !! c0 = Some ch /\
         kf !! (letters_before (upper (asc "b-c d!")) i `mod` length kf)%nat = Some kc /\
         LETTERS !! s = Some kc /\
         LETTERS !! ((c0 + 71 - s) `mod` 71)%nat = Some d /\
         asc "A-B C!" !! i = Some d).
Proof.
  apply (vigenere_decrypt_positions (asc "b-c d!") (asc "b") (asc "A-B C!")).
  vm_compute. reflexivity.
Defined.

(** X3. The round trip in the other order: where [vigenere_decrypt]
    returns, encrypting its result with the same key returns the
    upper-cased text. *)
Theorem vigenere_encrypt_decrypt (text key dec : list Z) :
  vigenere_decrypt text key = Ok dec ->
  vigenere_encrypt dec key = Ok (upper text).
Proof.
  intros Hdec. destruct (decide (key_filtered key = [])) as [Hk|Hk].
  - destruct (vigenere_decrypt_invalid text key Hk) as [m Hm]. congruence.
  - rewrite vigenere_decrypt_valid in Hdec by assumption.
    destruct (roundtrip_loop_back (key_filtered key) Hk (key_filtered_letters key)
                (upper text) (upper_is_fixed text) 0 [] [])
      as (c & Hc & Hfix & Henc); [lia|].
    rewrite Hc in Hdec. injection Hdec as <-.
    rewrite vigenere_encrypt_valid by assumption.
    rewrite (upper_of_fixed _ Hfix). exact Henc.
Qed.

Lemma vigenere_encrypt_decrypt_witness :
  vigenere_decrypt (asc "b-c d!") (asc "kEy") = Ok [0x40E; 45; 0xC6; 32; 0x427; 33] /\
  vigenere_encrypt [0x40E; 45; 0xC6; 32; 0x427; 33] (asc "kEy")
    = Ok (upper (asc "b-c d!")).
Proof.
  assert (H : vigenere_decrypt (asc "b-c d!") (asc "kEy")
              = Ok [0x40E; 45; 0xC6; 32; 0x427; 33]) by (vm_compute; reflexivity).
  split; [exact H|]. exact (vigenere_encrypt_decrypt _ _ _ H).
Defined.

Lemma prepare_key_upper key : _prepare_key (upper key) = _prepare_key key.
Proof.
  unfold _prepare_key. destruct (decide (key = [])) as [->|Hne].
  - reflexivity.
  - rewrite decide_False by (now apply upper_nonempty).
    now rewrite upper_idempotent.
Qed.

Lemma key_filtered_fixed key : upper (key_filtered key) = key_filtered key.
Proof.
  apply upper_of_fixed, List.Forall_forall. intros ch Hin.
  apply list_elem_of_In, list_elem_of_filter in Hin as [[c Hc] _].
  now apply index_lookup in Hc.
Qed.

Lemma prepare_key_filtered key :
  key_filtered key <> [] -> _prepare_key (key_filtered key) = _prepare_key key.
Proof.
  intros Hk. rewrite (prepare_key_Ok key Hk).
  assert (Hf : key_filtered (key_filtered key) = key_filtered key).
  { unfold key_filtered at 1. rewrite key_filtered_fixed.
    unfold key_filtered. apply list_filter_filter_l. auto. }
  rewrite <- Hf at 2. apply prepare_key_Ok. now rewrite Hf.
Qed.

(** X4. The cipher sees its arguments upper-cased, and of the key only the
    letters of the alphabet: upper-casing the text and the key beforehand
    changes nothing, with or without an error, and a key that has at least
    one letter acts as the string of its upper-cased letters. *)
Theorem vigenere_arguments_normalised (text key : list Z) :
  vigenere_encrypt (upper text) (upper key) = vigenere_encrypt text key /\
  vigenere_decrypt (upper text) (upper key) = vigenere_decrypt text key /\
  (filter (fun ch => ch ∈ LETTERS) (upper key) <> [] ->
     vigenere_encrypt text (filter (fun ch => ch ∈ LETTERS) (upper key))
       = vigenere_encrypt text key /\
     vigenere_decrypt text (filter (fun ch => ch ∈ LETTERS) (upper key))
       = vigenere_decrypt text key).
Proof.
  unfold vigenere_encrypt, vigenere_decrypt.
  rewrite prepare_key_upper, upper_idempotent.
  split; [reflexivity|]. split; [reflexivity|].
  rewrite <- key_filtered_spec. intros Hk.
  rewrite (prepare_key_filtered _ Hk). split; reflexivity.
Qed.

Lemma vigenere_arguments_normalised_witness :
  vigenere_encrypt (asc "Hello") (filter (fun ch => ch ∈ LETTERS) (upper (asc "k-e y!")))
    = vigenere_encrypt (asc "Hello") (asc "k-e y!") /\
  vigenere_decrypt (asc "Hello") (filter (fun ch => ch ∈ LETTERS) (upper (asc "k-e y!")))
    = vigenere_decrypt (asc "Hello") (asc "k-e y!").
Proof.
  apply (vigenere_arguments_normalised (asc "Hello") (asc "k-e y!")).
  vm_compute. discriminate.
Defined.

(** X5. What the cipher returns is in upper case already: [upper] leaves
    the results of [vigenere_encrypt] and [vigenere_decrypt] unchanged. *)
Theorem vigenere_output_upper (text key out : list Z) :
  vigenere_encrypt text key = Ok out \/ vigenere_decrypt text key = Ok out ->
  upper out = out.
Proof.
  intros H. destruct (decide (key_filtered key = [])) as [Hk|Hk].
  { destruct (vigenere_encrypt_invalid text key Hk) as [m Hm].
    destruct (vigenere_decrypt_invalid text key Hk) as [m' Hm'].
    destruct H; congruence. }
  rewrite vigenere_encrypt_valid, vigenere_decrypt_valid in H by assumption.
  destruct (roundtrip_loop (key_filtered key) Hk (key_filtered_letters key)
              (upper text) (upper_is_fixed text) 0 [] [])
    as (c & Hc & Hfix & _); [lia|].
  destruct (roundtrip_loop_back (key_filtered key) Hk (key_filtered_letters key)
              (upper text) (upper_is_fixed text) 0 [] [])
    as (d & Hd & Hfix' & _); [lia|].
  rewrite Hc, Hd in H. apply upper_of_fixed.
  destruct H as [[= <-]|[= <-]]; assumption.
Qed.

Lemma vigenere_output_upper_witness :
  upper [82; 73; 0x418; 86; 83] = [82; 73; 0x418; 86; 83].
Proof.
  apply (vigenere_output_upper (asc "hello") (asc "key") [82; 73; 0x418; 86; 83]).
  left. vm_compute. reflexivity.
Defined.

(** ** The framing codec: bits, bytes and errors *)

Lemma list_of_length_8 {A} (l : list A) :
  length l = 8%nat ->
  exists a b c d e f g h, l = [a; b; c; d; e; f; g; h].
Proof.
  intros H. do 8 (destruct l as [|? l]; [discriminate H|]).
  destruct l; [|discriminate H]. repeat eexists.
Qed.

(** Eight binary digits are read as a byte, and the byte is written back as
    the same eight digits. *)
Lemma int2_chunk chunk :
  length chunk = 8%nat -> Forall is_bit chunk ->
  exists v, int2 chunk = Ok v /\ is_byte v /\ format_08b v = chunk.
Proof.
  intros Hlen Hbits.
  destruct (list_of_length_8 _ Hlen) as (a & b & c & d & e & f & g & h & ->).
  repeat match goal with
         | H : Forall is_bit (_ :: _) |- _ => apply Forall_cons_1 in H as [? H]
         end.
  repeat match goal with
         | H : is_bit _ |- _ => destruct H as [->| ->]
         end;
    (eexists; split; [vm_compute; reflexivity|];
     split; [unfold is_byte; lia|vm_compute; reflexivity]).
Qed.

Lemma take_bytes_to_bits k bs :
  take (8 * k) (_bytes_to_bits bs) = _bytes_to_bits (take k bs).
Proof.
  revert bs. induction k as [|k IH]; intros bs; [reflexivity|].
  destruct bs as [|b bs]; [reflexivity|].
  cbn [take]. rewrite !bytes_to_bits_cons, <- IH.
  replace (8 * S k)%nat with (length (format_08b b) + 8 * k)%nat
    by (rewrite format_08b_length; lia).
  apply take_app_add.
Qed.

Lemma bits_to_bytes_loop_bits bits n :
  Forall is_bit bits -> length bits = (8 * n)%nat ->
  forall m k out, (k + m = n)%nat ->
  exists data,
    bits_to_bytes_loop bits ((fun j => (8 * j)%nat) <$> seq k m) out = Ok (out ++ data) /\
    Forall is_byte data /\ length data = m /\
    _bytes_to_bits data = drop (8 * k) bits.
Proof.
  intros Hbits Hlen. induction m as [|m IH]; intros k out Hk.
  - exists []. rewrite app_nil_r. repeat split; [constructor|].
    rewrite drop_ge by lia. reflexivity.
  - cbn [seq fmap list_fmap]. rewrite bits_to_bytes_loop_cons.
    set (chunk := slice bits (Z.of_nat (8 * k)) (Z.of_nat (8 * k) + 8)).
    assert (Hchunk : chunk = take 8 (drop (8 * k) bits)).
    { unfold chunk, slice. rewrite Nat2Z.id. f_equal. lia. }
    destruct (int2_chunk chunk) as (v & Hv & Hbyte & Hfmt).
    { rewrite Hchunk, length_take, length_drop. lia. }
    { rewrite Hchunk. now apply Forall_take, Forall_drop. }
    rewrite Hv, bind_Ok, (bytearray_append_byte _ _ Hbyte), bind_Ok.
    destruct (IH (S k) (out ++ [v])) as (data & Hloop & Hdata & Hdlen & Hback);
      [lia|].
    exists (v :: data). split; [|split; [|split]].
    + rewrite Hloop, <- app_assoc. reflexivity.
    + now apply Forall_cons_2.
    + cbn [length]. now rewrite Hdlen.
    + rewrite bytes_to_bits_cons, Hfmt, Hback, Hchunk.
      replace (8 * S k)%nat with (8 * k + 8)%nat by lia.
      rewrite <- drop_drop. apply take_drop.
Qed.

Lemma bits_to_bytes_bits bits :
  Forall is_bit bits -> (length bits `mod` 8 = 0)%nat ->
  exists data,
    _bits_to_bytes bits = Ok data /\ Forall is_byte data /\
    (8 * length data = length bits)%nat /\ _bytes_to_bits data = bits.
Proof.
  intros Hbits Hmod.
  assert (Hlen : length bits = (8 * (length bits `div` 8))%nat).
  { pose proof (Nat.div_mod_eq (length bits) 8). lia. }
  unfold _bits_to_bytes. rewrite decide_False by lia.
  replace (range8 (length bits)) with (range8 (8 * (length bits `div` 8)))
    by (now rewrite <- Hlen).
  rewrite range8_bytes.
  destruct (bits_to_bytes_loop_bits bits _ Hbits Hlen (length bits `div` 8) 0 [])
    as (data & Hloop & Hdata & Hdlen & Hback); [lia|].
  exists data. rewrite Hloop. repeat split; [assumption|lia|].
  now rewrite Hback, drop_0.
Qed.

(** X6. Bytes written as bits are read back by [_bits_to_bytes]. *)
Theorem bits_to_bytes_of_bytes_to_bits (data : list Z) :
  Forall is_byte data -> _bits_to_bytes (_bytes_to_bits data) = Ok data.
Proof. apply bits_to_bytes_to_bits. Qed.

Lemma bits_to_bytes_of_bytes_to_bits_witness :
  _bits_to_bytes (_bytes_to_bits [0; 90; 255]) = Ok [0; 90; 255].
Proof.
  apply (bits_to_bytes_of_bytes_to_bits [0; 90; 255]).
  repeat (apply Forall_cons_2; [unfold is_byte; lia|]). constructor.
Defined.

(** X7. On a string of binary digits [_bits_to_bytes] raises exactly when
    the length is not a multiple of 8; otherwise it returns one byte for
    every eight digits, and [_bytes_to_bits] writes the same digits back. *)
Theorem bytes_to_bits_of_bits_to_bytes (bits : list Z) :
  Forall is_bit bits ->
  (raises (_bits_to_bytes bits) <-> (length bits `mod` 8 <> 0)%nat) /\
  ((length bits `mod` 8 <> 0)%nat ->
     _bits_to_bytes bits = Raise (ValueError BitCountNotMultipleOf8)) /\
  ((length bits `mod` 8 = 0)%nat ->
     exists data,
       _bits_to_bytes bits = Ok data /\ Forall is_byte data /\
       (8 * length data = length bits)%nat /\ _bytes_to_bits data = bits).
Proof.
  intros Hbits.
  assert (Hraise : (length bits `mod` 8 <> 0)%nat ->
                   _bits_to_bytes bits = Raise (ValueError BitCountNotMultipleOf8)).
  { intros H. unfold _bits_to_bytes. now rewrite decide_True. }
  split; [|split; [exact Hraise|now apply bits_to_bytes_bits]].
  split.
  - intros [e He] Hmod.
    destruct (bits_to_bytes_bits _ Hbits Hmod) as (data & Hd & _). congruence.
  - intros H. eexists. now apply Hraise.
Qed.

Lemma bytes_to_bits_of_bits_to_bytes_witness :
  _bits_to_bytes (asc "010") = Raise (ValueError BitCountNotMultipleOf8) /\
  exists data,
    _bits_to_bytes (asc "0101101011111111") = Ok data /\ Forall is_byte data /\
    (8 * length data = length (asc "0101101011111111"))%nat /\
    _bytes_to_bits data = asc "0101101011111111".
Proof.
  split.
  - apply (bytes_to_bits_of_bits_to_bytes (asc "010")).
    + repeat (apply Forall_cons_2; [vm_compute; auto|]). constructor.
    + vm_compute. discriminate.
  - apply (bytes_to_bits_of_bits_to_bytes (asc "0101101011111111")).
    + repeat (apply Forall_cons_2; [vm_compute; auto|]). constructor.
    + vm_compute. reflexivity.
Defined.

Lemma utf8_encode_char_raise c e :
  utf8_encode_char c = Raise e -> e = UnicodeEncodeError /\ is_surrogate c.
Proof.
  unfold utf8_encode_char, is_surrogate.
  repeat case_decide; intros [= <-]. split; [reflexivity|assumption].
Qed.

Lemma utf8_encode_char_surrogate c :
  is_surrogate c -> utf8_encode_char c = Raise UnicodeEncodeError.
Proof.
  unfold utf8_encode_char, is_surrogate. intros H.
  repeat case_decide; try reflexivity; lia.
Qed.

Lemma utf8_encode_raise text e :
  utf8_encode text = Raise e -> e = UnicodeEncodeError /\ Exists is_surrogate text.
Proof.
  induction text as [|c text IH]; [discriminate|].
  cbn [utf8_encode]. destruct (utf8_encode_char c) as [b|e'] eqn:Hc.
  - rewrite bind_Ok. destruct (utf8_encode text) as [p|e'] eqn:Hp.
    + rewrite bind_Ok. discriminate.
    + rewrite bind_Raise. intros [= <-]. destruct (IH eq_refl) as [-> Hex].
      split; [reflexivity|]. now apply Exists_cons_tl.
  - rewrite bind_Raise. intros [= <-].
    apply utf8_encode_char_raise in Hc as [-> Hs].
    split; [reflexivity|]. now apply Exists_cons_hd.
Qed.

Lemma utf8_encode_surrogate text :
  Exists is_surrogate text -> utf8_encode text = Raise UnicodeEncodeError.
Proof.
  induction 1 as [c text Hc|c text _ IH]; cbn [utf8_encode].
  - now rewrite (utf8_encode_char_surrogate _ Hc).
  - rewrite IH. destruct (utf8_encode_char c) as [b|e] eqn:Hc; [reflexivity|].
    apply utf8_encode_char_raise in Hc as [-> _]. reflexivity.
Qed.

(** X8. What [text_to_binary] returns is made of binary digits only and
    is 64 digits longer than eight times the UTF-8 length of the text; its
    first 32 digits are those of the magic, the next 32 read as the byte
    count of the payload, and the rest are the digits of the payload. *)
Theorem text_to_binary_frame (text bits : list Z) :
  text_to_binary text = Ok bits ->
  exists payload len,
    utf8_encode text = Ok payload /\
    Z.of_nat (length payload) < 2 ^ 32 /\
    length bits = (64 + 8 * length payload)%nat /\
    Forall is_bit bits /\
    take 32 bits = _bytes_to_bits MAGIC /\
    _bits_to_bytes (take 32 (drop 32 bits)) = Ok len /\
    from_bytes len = Z.of_nat (length payload) /\
    drop 64 bits = _bytes_to_bits payload.
Proof.
  intros Hbits. pose proof (text_to_binary_bits _ _ Hbits) as Hb.
  apply text_to_binary_inv in Hbits as (payload & len & Hp & Hl & ->).
  destruct (from_bytes_to_bytes4 _ _ Hl) as (Hfrom & Hlen4 & Hlenb).
  assert (Hn : Z.of_nat (length payload) < 2 ^ 32).
  { unfold to_bytes4 in Hl. case_decide; [lia|discriminate]. }
  assert (Hm : length (_bytes_to_bits MAGIC) = 32%nat) by reflexivity.
  assert (Hll : length (_bytes_to_bits len) = 32%nat).
  { rewrite bytes_to_bits_length. lia. }
  exists payload, len. rewrite bytes_to_bits_app, <- !app_assoc.
  split; [exact Hp|]. split; [exact Hn|]. split.
  { rewrite !length_app, Hm, Hll, bytes_to_bits_length. lia. }
  split. { now rewrite bytes_to_bits_app, <- !app_assoc in Hb. }
  split. { now apply take_app_length'. }
  split.
  { rewrite (drop_app_length' _ _ _ (eq_sym Hm)).
    rewrite (take_app_length' _ _ _ (eq_sym Hll)).
    now apply bits_to_bytes_to_bits. }
  split; [exact Hfrom|].
  rewrite app_assoc. apply drop_app_length'.
  rewrite length_app, Hm, Hll. reflexivity.
Qed.

Lemma text_to_binary_frame_witness :
  exists payload len,
    utf8_encode [104; 0x438] = Ok payload /\
    Z.of_nat (length payload) < 2 ^ 32 /\
    length (_bytes_to_bits (MAGIC ++ [0; 0; 0; 3; 104; 208; 184]))
      = (64 + 8 * length payload)%nat /\
    Forall is_bit (_bytes_to_bits (MAGIC ++ [0; 0; 0; 3; 104; 208; 184])) /\
    take 32 (_bytes_to_bits (MAGIC ++ [0; 0; 0; 3; 104; 208; 184]))
      = _bytes_to_bits MAGIC /\
    _bits_to_bytes
      (take 32 (drop 32 (_bytes_to_bits (MAGIC ++ [0; 0; 0; 3; 104; 208; 184]))))
      = Ok len /\
    from_bytes len = Z.of_nat (length payload) /\
    drop 64 (_bytes_to_bits (MAGIC ++ [0; 0; 0; 3; 104; 208; 184]))
      = _bytes_to_bits payload.
Proof.
  apply (text_to_binary_frame [104; 0x438]). vm_compute. reflexivity.
Defined.

(** X9. [text_to_binary] fails in two ways only: with [UnicodeEncodeError],
    exactly when the text holds a surrogate, and with [OverflowError],
    exactly when the text is encoded in 2^32 bytes or more. *)
Theorem text_to_binary_errors (text : list Z) :
  (Exists is_surrogate text <-> text_to_binary text = Raise UnicodeEncodeError) /\
  ((exists payload, utf8_encode text = Ok payload /\ 2 ^ 32 <= Z.of_nat (length payload))
     <-> text_to_binary text = Raise OverflowError) /\
  (forall e, text_to_binary text = Raise e ->
             e = UnicodeEncodeError \/ e = OverflowError).
Proof.
  unfold text_to_binary. destruct (utf8_encode text) as [payload|e] eqn:Hp.
  - rewrite bind_Ok. unfold to_bytes4.
    destruct (decide (0 <= Z.of_nat (length payload) < 2 ^ 32)) as [Hn|Hn].
    + rewrite bind_Ok. split; [|split].
      * split; [|discriminate]. intros H.
        rewrite (utf8_encode_surrogate _ H) in Hp. discriminate.
      * split; [|discriminate]. intros (p & [= <-] & H). lia.
      * discriminate.
    + rewrite bind_Raise. split; [|split].
      * split; [|discriminate]. intros H.
        rewrite (utf8_encode_surrogate _ H) in Hp. discriminate.
      * split; [reflexivity|]. intros _. exists payload. split; [reflexivity|lia].
      * intros e [= <-]. now right.
  - rewrite bind_Raise. apply utf8_encode_raise in Hp as [-> Hex].
    split; [|split].
    + split; [reflexivity|]. intros _. exact Hex.
    + split; [|discriminate]. intros (p & Hp' & _). discriminate.
    + intros e [= <-]. now left.
Qed.

Lemma text_to_binary_errors_witness :
  text_to_binary [104; 0xD83D; 105] = Raise UnicodeEncodeError.
Proof.
  apply (text_to_binary_errors [104; 0xD83D; 105]).
  apply Exists_cons_tl, Exists_cons_hd. unfold is_surrogate. lia.
Defined.

(** X10. [binary_to_text] reads a framed text back whatever follows the
    frame: bits after the declared payload are ignored. *)
Theorem binary_to_text_ignores_trailing (text bits extra : list Z) :
  Forall is_code_point text ->
  text_to_binary text = Ok bits ->
  binary_to_text (bits ++ extra) = Ok text.
Proof.
  intros Htext Hbits.
  apply text_to_binary_inv in Hbits as (payload & len & Hp & Hl & ->).
  now apply binary_to_text_framed.
Qed.

Lemma binary_to_text_ignores_trailing_witness :
  binary_to_text (_bytes_to_bits (MAGIC ++ [0; 0; 0; 3; 104; 208; 184]) ++ asc "10x")
  = Ok [104; 0x438].
Proof.
  apply (binary_to_text_ignores_trailing [104; 0x438]).
  - repeat (apply Forall_cons_2; [unfold is_code_point; lia|]). constructor.
  - vm_compute. reflexivity.
Defined.

(** X11. A string of at least 64 binary digits whose first 32 digits are
    not those of the magic is rejected with the bad-format [ValueError]. *)
Theorem binary_to_text_magic_mismatch (binary : list Z) :
  Forall is_bit binary ->
  (64 <= length binary)%nat ->
  take 32 binary <> _bytes_to_bits MAGIC ->
  binary_to_text binary = Raise (ValueError BadFormat).
Proof.
  intros Hbits Hlen Hmagic. unfold binary_to_text.
  rewrite slice_from_0. change (Z.to_nat HEADER_BITS) with 64%nat.
  destruct (bits_to_bytes_bits (take 64 binary)) as (header & Hh & Hhb & Hhl & Hback).
  { now apply Forall_take. }
  { rewrite length_take_le by assumption. reflexivity. }
  rewrite Hh, bind_Ok, slice_from_0. change (Z.to_nat 4) with 4%nat.
  rewrite decide_True; [reflexivity|].
  intros Heq. apply Hmagic. rewrite <- Heq.
  change 32%nat with (8 * 4)%nat. rewrite <- take_bytes_to_bits, Hback.
  rewrite take_take. reflexivity.
Qed.

Lemma binary_to_text_magic_mismatch_witness :
  binary_to_text (_bytes_to_bits [165; 87; 83; 84; 0; 0; 0; 1; 104])
  = Raise (ValueError BadFormat).
Proof.
  apply (binary_to_text_magic_mismatch
           (_bytes_to_bits [165; 87; 83; 84; 0; 0; 0; 1; 104])).
  - apply bytes_to_bits_bits.
  - vm_compute. lia.
  - vm_compute. discriminate.
Defined.

(** ** The carrier: what embedding keeps and what extraction can read *)

Lemma marker_is_marker b : is_marker (marker b).
Proof. unfold is_marker, marker. case_decide; auto. Qed.

Lemma marker_not_space b : marker b <> SPACE.
Proof. unfold marker. case_decide; discriminate. Qed.

Lemma space_not_marker : ~ is_marker SPACE.
Proof. intros [H|H]; discriminate. Qed.

Lemma embed_count_space carrier :
  forall bits, count SPACE (embed bits carrier) = count SPACE carrier.
Proof.
  induction carrier as [|ch rest IH]; intros bits; [reflexivity|].
  cbn [embed]. destruct (decide (ch = SPACE)) as [->|Hne].
  - destruct bits as [|b bits].
    + now rewrite embed_nil.
    + rewrite !count_cons_eq, count_cons_ne by apply marker_not_space.
      now rewrite IH.
  - rewrite !count_cons_ne by assumption. apply IH.
Qed.

Lemma embed_visible carrier :
  forall bits, visible (embed bits carrier) = visible carrier.
Proof.
  unfold visible.
  induction carrier as [|ch rest IH]; intros bits; [reflexivity|].
  cbn [embed]. destruct (decide (ch = SPACE)) as [->|Hne].
  - destruct bits as [|b bits].
    + now rewrite embed_nil.
    + rewrite !(filter_cons_True _ SPACE) by apply space_not_marker.
      rewrite filter_cons_False by (intros H; apply H, marker_is_marker).
      now rewrite IH.
  - rewrite !(filter_cons _ ch). case_decide; now rewrite IH.
Qed.

Lemma visible_unmarked s : ZWS_0 ∉ s -> ZWNJ_1 ∉ s -> visible s = s.
Proof.
  unfold visible. induction s as [|c s IH]; [reflexivity|].
  rewrite !not_elem_of_cons. intros [H0 Hs0] [H1 Hs1].
  rewrite filter_cons_True by (intros [H|H]; congruence).
  now rewrite IH.
Qed.

(** X12. Embedding only inserts markers: the marked carrier is longer by
    the number of bits, has the same number of spaces, hence the same
    capacity, and is the carrier again once the two marker characters are
    taken out of both. *)
Theorem hide_text_in_container_keeps (secret carrier stego : list Z) :
  hide_text_in_container secret carrier = Ok stego ->
  length stego = (length carrier + length secret)%nat /\
  get_capacity stego = get_capacity carrier /\
  visible stego = visible carrier /\
  (ZWS_0 ∉ carrier -> ZWNJ_1 ∉ carrier -> visible stego = carrier).
Proof.
  intros Hhide.
  destruct (decide (length secret > count SPACE carrier)%nat) as [Hgt|Hle].
  { rewrite hide_raises in Hhide by assumption. discriminate. }
  rewrite hide_returns in Hhide by lia. injection Hhide as <-.
  split; [apply embed_length; lia|]. split; [|split].
  - unfold get_capacity. now rewrite embed_count_space.
  - apply embed_visible.
  - intros H0 H1. rewrite embed_visible. now apply visible_unmarked.
Qed.

Lemma hide_text_in_container_keeps_witness :
  length [97; 32; ZWS_0; 98; 32; ZWNJ_1; 32; 99]
    = (length (asc "a b  c") + length (asc "01"))%nat /\
  get_capacity [97; 32; ZWS_0; 98; 32; ZWNJ_1; 32; 99] = get_capacity (asc "a b  c") /\
  visible [97; 32; ZWS_0; 98; 32; ZWNJ_1; 32; 99] = visible (asc "a b  c") /\
  (ZWS_0 ∉ asc "a b  c" -> ZWNJ_1 ∉ asc "a b  c" ->
   visible [97; 32; ZWS_0; 98; 32; ZWNJ_1; 32; 99] = asc "a b  c").
Proof.
  apply (hide_text_in_container_keeps (asc "01") (asc "a b  c")).
  vm_compute. reflexivity.
Defined.

(** X13. From a carrier without marker characters, extraction reads back
    every secret that fits as it was embedded: ['0'] where the secret has
    ['0'] and ['1'] elsewhere, so a string of binary digits comes back
    unchanged. *)
Theorem extract_hide_unmarked (secret carrier : list Z) :
  (length secret <= count SPACE carrier)%nat ->
  ZWS_0 ∉ carrier -> ZWNJ_1 ∉ carrier ->
  exists stego,
    hide_text_in_container secret carrier = Ok stego /\
    extract_text_from_container stego
      = Some (Ok ((fun b => if decide (b = DIGIT_0) then DIGIT_0 else DIGIT_1)
                    <$> secret)) /\
    (Forall is_bit secret ->
       extract_text_from_container stego = Some (Ok secret)).
Proof.
  intros Hcap H0 H1. exists (embed secret carrier).
  assert (Hex : extract_text_from_container (embed secret carrier)
                = Some (Ok (digit_read <$> secret))).
  { rewrite extract_scan, (scan_embed _ _ Hcap).
    pose proof (unmarked_after_spaces (length secret) carrier H0 H1) as Hno.
    apply scan_nil_iff in Hno. now rewrite Hno, app_nil_r. }
  split; [now apply hide_returns|]. split; [exact Hex|].
  intros Hbits. now rewrite Hex, digit_read_bits.
Qed.

Lemma extract_hide_unmarked_witness :
  exists stego,
    hide_text_in_container (asc "01x") (asc "a b c d") = Ok stego /\
    extract_text_from_container stego
      = Some (Ok ((fun b => if decide (b = DIGIT_0) then DIGIT_0 else DIGIT_1)
                    <$> asc "01x")) /\
    (Forall is_bit (asc "01x") ->
       extract_text_from_container stego = Some (Ok (asc "01x"))).
Proof.
  apply (extract_hide_unmarked (asc "01x") (asc "a b c d")).
  - vm_compute. lia.
  - vm_compute. intros H. repeat (apply elem_of_cons in H as [H|H]; [discriminate|]).
    now apply not_elem_of_nil in H.
  - vm_compute. intros H. repeat (apply elem_of_cons in H as [H|H]; [discriminate|]).
    now apply not_elem_of_nil in H.
Defined.

Lemma scan_bound_cons container :
  (length (scan container) <= count SPACE container)%nat /\
  (2 * length (scan container) <= length container)%nat /\
  forall c, (length (scan (c :: container)) <= count SPACE (c :: container))%nat /\
            (2 * length (scan (c :: container)) <= S (length container))%nat.
Proof.
  induction container as [|m rest (IHa & IHa' & IHb)].
  - repeat split; cbn; lia.
  - split; [apply IHb|]. split; [apply IHb|]. intros c. rewrite scan_cons2.
    destruct (IHb m) as [Hb Hb'].
    assert (Hcnt : (count SPACE rest <= count SPACE (m :: rest))%nat).
    { destruct (decide (m = SPACE)) as [->|Hm];
        [rewrite count_cons_eq|rewrite count_cons_ne by assumption]; lia. }
    destruct (decide (c = SPACE)) as [->|Hc].
    + rewrite count_cons_eq. cbn [length] in *.
      repeat case_decide; cbn [length]; lia.
    + rewrite (count_cons_ne _ c) by assumption. cbn [length] in *. lia.
Qed.

(** X14. Extraction never returns more bits than the text has spaces, that
    is than [get_capacity] reports, nor more than half its length. *)
Theorem extract_text_from_container_bound (container bits : list Z) :
  extract_text_from_container container = Some (Ok bits) ->
  (length bits <= bits_capacity (get_capacity container))%nat /\
  (2 * length bits <= length container)%nat.
Proof.
  rewrite extract_scan. intros [= <-].
  destruct (scan_bound_cons container) as (H1 & H2 & _). split; assumption.
Qed.

Lemma extract_text_from_container_bound_witness :
  (length (asc "01") <= bits_capacity (get_capacity [88; 32; ZWS_0; 89; 32; ZWNJ_1; 90]%Z))%nat /\
  (2 * length (asc "01") <= length [88; 32; ZWS_0; 89; 32; ZWNJ_1; 90]%Z)%nat.
Proof.
  apply (extract_text_from_container_bound [88; 32; ZWS_0; 89; 32; ZWNJ_1; 90]).
  vm_compute. reflexivity.
Defined.

Lemma embed_app c1 :
  forall s1 s2 c2, length s1 = count SPACE c1 ->
  embed (s1 ++ s2) (c1 ++ c2) = embed s1 c1 ++ embed s2 c2.
Proof.
  induction c1 as [|ch rest IH]; intros s1 s2 c2 Hlen.
  - rewrite count_nil in Hlen. destruct s1; [reflexivity|discriminate].
  - cbn [app embed]. destruct (decide (ch = SPACE)) as [->|Hne].
    + rewrite count_cons_eq in Hlen. destruct s1 as [|b s1]; [discriminate|].
      injection Hlen as Hlen. cbn [app]. now rewrite IH.
    + rewrite count_cons_ne in Hlen by assumption. now rewrite IH.
Qed.

(** X15. Embedding goes piece by piece: when a first carrier has exactly
    as many spaces as a first secret has characters, hiding the two
    secrets joined in the two carriers joined gives the two marked
    carriers joined. *)
Theorem hide_text_in_container_app (s1 s2 c1 c2 o1 o2 : list Z) :
  length s1 = count SPACE c1 ->
  hide_text_in_container s1 c1 = Ok o1 ->
  hide_text_in_container s2 c2 = Ok o2 ->
  hide_text_in_container (s1 ++ s2) (c1 ++ c2) = Ok (o1 ++ o2).
Proof.
  intros Hlen H1 H2.
  destruct (decide (length s2 > count SPACE c2)%nat) as [Hgt|Hle].
  { rewrite hide_raises in H2 by assumption. discriminate. }
  rewrite hide_returns in H1 by lia. rewrite hide_returns in H2 by lia.
  injection H1 as <-. injection H2 as <-.
  rewrite hide_returns by (rewrite length_app, count_app; lia).
  now rewrite embed_app.
Qed.

Lemma hide_text_in_container_app_witness :
  hide_text_in_container (asc "01" ++ asc "1") (asc "a b c" ++ asc " d e")
  = Ok ([97; 32; ZWS_0; 98; 32; ZWNJ_1; 99] ++ [32; ZWNJ_1; 100; 32; 101]).
Proof.
  apply (hide_text_in_container_app (asc "01") (asc "1") (asc "a b c") (asc " d e"));
    vm_compute; reflexivity.
Defined.

(** ** The two commands of [main] *)

Import Main.

Lemma upper_table_images_scalar : forallb image_scalar upper_table = true.
Proof. vm_compute. reflexivity. Qed.

Lemma upper_char_scalar c : is_scalar c -> Forall is_scalar (upper_char c).
Proof.
  intros Hc. unfold upper_char. destruct (assoc c upper_table) as [u|] eqn:E.
  - apply assoc_In in E. pose proof upper_table_images_scalar as H.
    rewrite forallb_forall in H. specialize (H _ E).
    unfold image_scalar in H. rewrite forallb_forall in H.
    apply List.Forall_forall. intros d Hd. specialize (H _ Hd).
    now apply bool_decide_eq_true in H.
  - now apply Forall_cons_2.
Qed.

Lemma upper_scalar s : Forall is_scalar s -> Forall is_scalar (upper s).
Proof.
  induction 1 as [|c s Hc _ IH]; [constructor|].
  rewrite upper_cons. apply Forall_app. split; [now apply upper_char_scalar|exact IH].
Qed.

Lemma upper_char_code_point c : is_code_point c -> Forall is_code_point (upper_char c).
Proof.
  intros Hc. unfold upper_char. destruct (assoc c upper_table) as [u|] eqn:E.
  - apply assoc_In in E. pose proof upper_table_images_scalar as H.
    rewrite forallb_forall in H. specialize (H _ E).
    unfold image_scalar in H. rewrite forallb_forall in H.
    apply List.Forall_forall. intros d Hd. specialize (H _ Hd).
    apply bool_decide_eq_true in H. unfold is_code_point. tauto.
  - now apply Forall_cons_2.
Qed.

Lemma upper_code_point s : Forall is_code_point s -> Forall is_code_point (upper s).
Proof.
  induction 1 as [|c s Hc _ IH]; [constructor|].
  rewrite upper_cons. apply Forall_app.
  split; [now apply upper_char_code_point|exact IH].
Qed.

Lemma letters_scalar : Forall is_scalar LETTERS.
Proof.
  unfold LETTERS. repeat (apply Forall_cons_2; [unfold is_scalar; lia|]).
  constructor.
Qed.

Lemma scalar_code_point c : is_scalar c -> is_code_point c.
Proof. unfold is_scalar, is_code_point. tauto. Qed.

(** The cipher text is made of characters of the upper-cased text and of
    letters of the alphabet. *)
Lemma vigenere_encrypt_Forall (P : Z -> Prop) text key enc :
  Forall P LETTERS -> Forall P (upper text) ->
  vigenere_encrypt text key = Ok enc ->
  length enc = length (upper text) /\ Forall P enc.
Proof.
  intros HL HT Henc. destruct (decide (key_filtered key = [])) as [Hk|Hk].
  { destruct (vigenere_encrypt_invalid text key Hk) as [m Hm]. congruence. }
  rewrite vigenere_encrypt_valid in Henc by assumption.
  destruct (encrypt_loop_positions (key_filtered key) Hk (key_filtered_letters key)
              (upper text) 0 []) as (c & Hc & Hlen & Hpos); [lia|].
  rewrite Hc in Henc. injection Henc as <-. split; [exact Hlen|].
  apply Forall_lookup. intros i e He.
  destruct (lookup_lt_is_Some_2 (upper text) i) as [ch Hch].
  { rewrite <- Hlen. now apply lookup_lt_Some in He. }
  destruct (Hpos i ch Hch) as [Hout Hin].
  rewrite Forall_lookup in HT. rewrite Forall_lookup in HL.
  destruct (index !! ch) as [c0|] eqn:Hc0.
  - destruct (Hin c0 eq_refl) as (kc & s & _ & _ & _ & Hget).
    rewrite He in Hget. symmetry in Hget. exact (HL _ _ Hget).
  - assert (Hno : ch ∉ LETTERS).
    { rewrite <- index_dom. rewrite Hc0. intros [? ?]. discriminate. }
    rewrite (Hout Hno) in He. injection He as <-. exact (HT _ _ Hch).
Qed.

Lemma vigenere_roundtrip_aux text key enc :
  vigenere_encrypt text key = Ok enc ->
  vigenere_decrypt enc key = Ok (upper text).
Proof.
  intros Henc. destruct (decide (key_filtered key = [])) as [Hk|Hk].
  - destruct (vigenere_encrypt_invalid text key Hk) as [m Hm]. congruence.
  - rewrite vigenere_encrypt_valid in Henc by assumption.
    destruct (roundtrip_loop (key_filtered key) Hk (key_filtered_letters key)
                (upper text) (upper_is_fixed text) 0 [] [])
      as (c & Hc & Hfix & Hdec); [lia|].
    rewrite Hc in Henc. injection Henc as <-.
    rewrite vigenere_decrypt_valid by assumption.
    rewrite (upper_of_fixed _ Hfix). exact Hdec.
Qed.

Lemma validate_key_filtered key :
  Utils.validate_key key = true -> key_filtered key <> [].
Proof.
  intros H. apply validate_key_true in H as [Hne Hall].
  assert (Hf : key_filtered key = upper key).
  { rewrite key_filtered_spec. rewrite <- utils_letters.
    clear Hne. induction Hall as [|ch l Hch _ IH]; [reflexivity|].
    rewrite filter_cons_True by assumption. now rewrite IH. }
  rewrite Hf. now apply upper_nonempty.
Qed.

Lemma main_hide_Written key container secret path stego :
  main_hide key container secret = Written path stego ->
  Utils.validate_key key = true /\
  exists enc bits,
    vigenere_encrypt secret key = Ok enc /\
    text_to_binary enc = Ok bits /\
    hide_text_in_container bits container = Ok stego.
Proof.
  unfold main_hide. destruct (Utils.validate_key key); [|discriminate].
  cbn [negb]. destruct (vigenere_encrypt secret key) as [enc|e] eqn:He.
  2:{ rewrite bind_Raise. discriminate. }
  rewrite bind_Ok. destruct (text_to_binary enc) as [bits|e] eqn:Hb.
  2:{ rewrite bind_Raise. discriminate. }
  rewrite bind_Ok.
  destruct (hide_text_in_container bits container) as [s|e] eqn:Hs;
    [|discriminate].
  cbn [finish]. intros [= _ <-]. split; [reflexivity|].
  exists enc, bits. split; [reflexivity|]. split; [exact Hb|exact Hs].
Qed.

(** X16. The two commands undo each other: when [hide] writes a marked
    carrier for a secret of code points, [extract] run with the same key on
    that carrier writes the upper-cased secret, also when the carrier held
    markers of its own after the spaces used. *)
Theorem main_extract_hide (key container secret stego : list Z) (path : string) :
  Forall is_code_point secret ->
  main_hide key container secret = Written path stego ->
  main_extract key stego = Some (Written "extracted_secret.txt" (upper secret)).
Proof.
  intros Hsecret Hhide.
  apply main_hide_Written in Hhide as (Hkey & enc & bits & Henc & Hbits & Hstego).
  destruct (vigenere_encrypt_Forall is_code_point secret key enc) as [_ Hcp];
    [|now apply upper_code_point|assumption|].
  { eapply Forall_impl; [apply letters_scalar|apply scalar_code_point]. }
  destruct (decide (length bits > count SPACE container)%nat) as [Hgt|Hle].
  { rewrite hide_raises in Hstego by assumption. discriminate. }
  rewrite hide_returns in Hstego by lia. injection Hstego as <-.
  unfold main_extract. rewrite Hkey. cbn [negb].
  rewrite extract_scan, bind_Ok, scan_embed by lia.
  rewrite (digit_read_bits _ (text_to_binary_bits _ _ Hbits)).
  apply text_to_binary_inv in Hbits as (payload & len & Hp & Hl & ->).
  rewrite (binary_to_text_framed _ _ _ _ Hcp Hp Hl), bind_Ok.
  now rewrite (vigenere_roundtrip_aux _ _ _ Henc).
Qed.

Lemma main_extract_hide_witness :
  exists path stego,
    main_hide (asc "kEy") (replicate 81 SPACE ++ [ZWS_0]) (asc "y")
      = Written path stego /\
    main_extract (asc "kEy") stego
      = Some (Written "extracted_secret.txt" (upper (asc "y"))).
Proof.
  destruct (main_hide (asc "kEy") (replicate 81 SPACE ++ [ZWS_0]) (asc "y"))
    as [path stego| |e] eqn:H.
  - exists path, stego. split; [reflexivity|].
    apply (main_extract_hide (asc "kEy") (replicate 81 SPACE ++ [ZWS_0]) (asc "y")
             stego path); [|exact H].
    change (asc "y") with [121].
    apply Forall_cons_2; [unfold is_code_point; lia|constructor].
  - vm_compute in H. discriminate H.
  - vm_compute in H. discriminate H.
Defined.

Lemma utf8_encode_char_length c b :
  utf8_encode_char c = Ok b -> (1 <= length b <= 4)%nat.
Proof.
  unfold utf8_encode_char. repeat case_decide; intros [= <-]; cbn [length]; lia.
Qed.

Lemma utf8_encode_length s p :
  utf8_encode s = Ok p -> (length s <= length p <= 4 * length s)%nat.
Proof.
  revert p. induction s as [|c s IH]; intros p Hp.
  - injection Hp as <-. cbn. lia.
  - apply utf8_encode_cons_Ok in Hp as (b & p' & Hb & Hp' & ->).
    apply utf8_encode_char_length in Hb. specialize (IH _ Hp').
    rewrite length_app. cbn [length]. lia.
Qed.

Lemma is_scalar_not_surrogate s : Forall is_scalar s -> ~ Exists is_surrogate s.
Proof.
  intros H Hex. apply Exists_exists in Hex as (c & Hin & Hs).
  rewrite Forall_forall in H. destruct (H _ Hin) as [_ Hno]. now apply Hno.
Qed.


Lemma text_to_binary_length text bits payload :
  text_to_binary text = Ok bits -> utf8_encode text = Ok payload ->
  length bits = (64 + 8 * length payload)%nat.
Proof.
  intros Hbits Hp.
  apply text_to_binary_inv in Hbits as (payload' & len & Hp' & Hl & ->).
  rewrite Hp in Hp'. injection Hp' as <-.
  destruct (from_bytes_to_bytes4 _ _ Hl) as (_ & Hlen4 & _).
  rewrite length_app, !bytes_to_bits_length, length_app, Hlen4. cbn [length MAGIC]. lia.
Qed.

Lemma vigenere_encrypt_returns_valid text key :
  Utils.validate_key key = true -> returns (vigenere_encrypt text key).
Proof.
  intros Hkey. apply validate_key_filtered in Hkey.
  rewrite vigenere_encrypt_valid by assumption.
  apply encrypt_loop_returns; [assumption|apply key_filtered_letters|lia].
Qed.


(** X17. The room [hide] needs. A secret without surrogates whose
    upper-cased form has [n] characters is hidden under a valid key as soon
    as the carrier has [64 + 32 * n] spaces (and [4 * n] is below 2^32);
    and no secret is hidden in fewer than [64 + 8 * n] spaces. *)
Theorem main_hide_capacity (key container secret : list Z) :
  (Utils.validate_key key = true ->
   Forall is_scalar secret ->
   4 * Z.of_nat (length (upper secret)) < 2 ^ 32 ->
   (64 + 32 * length (upper secret) <= count SPACE container)%nat ->
   exists stego, main_hide key container secret = Written "stego_container.txt" stego) /\
  (forall path stego,
     main_hide key container secret = Written path stego ->
     (64 + 8 * length (upper secret) <= count SPACE container)%nat).
Proof.
  split.
  - intros Hkey Hsec Hsize Hcap.
    destruct (vigenere_encrypt_returns_valid secret key Hkey) as [enc Henc].
    destruct (vigenere_encrypt_Forall is_scalar secret key enc) as [Hlen Hsc];
      [apply letters_scalar|now apply upper_scalar|assumption|].
    destruct (utf8_encode enc) as [payload|e] eqn:Hp.
    2:{ apply utf8_encode_raise in Hp as [_ Hex].
        now apply is_scalar_not_surrogate in Hsc. }
    pose proof (utf8_encode_length _ _ Hp) as Hpl.
    destruct (text_to_binary_Ok enc payload Hp) as (len & Hl & Hbits); [lia|].
    pose proof (text_to_binary_length _ _ _ Hbits Hp) as Hbl.
    exists (embed (_bytes_to_bits (MAGIC ++ len) ++ _bytes_to_bits payload) container).
    unfold main_hide. rewrite Hkey. cbn [negb].
    rewrite Henc, bind_Ok, Hbits, bind_Ok.
    rewrite hide_returns by lia. reflexivity.
  - intros path stego Hhide.
    apply main_hide_Written in Hhide as (_ & enc & bits & Henc & Hbits & Hstego).
    destruct (vigenere_encrypt_Forall (fun _ => True) secret key enc) as [Hlen _];
      [apply Forall_true; auto|apply Forall_true; auto|assumption|].
    pose proof Hbits as Hinv.
    apply text_to_binary_inv in Hinv as (payload & len & Hp & _ & _).
    pose proof (utf8_encode_length _ _ Hp) as Hpl.
    pose proof (text_to_binary_length _ _ _ Hbits Hp) as Hbl.
    destruct (decide (length bits > count SPACE container)%nat) as [Hgt|Hle].
    { rewrite hide_raises in Hstego by assumption. discriminate. }
    lia.
Qed.

Lemma main_hide_capacity_witness :
  (exists stego,
     main_hide (asc "kEy") (replicate 96 SPACE) (asc "y")
       = Written "stego_container.txt" stego) /\
  (64 + 8 * length (upper (asc "y")) <= count SPACE (replicate 81 SPACE ++ [ZWS_0]))%nat.
Proof.
  split.
  - apply (main_hide_capacity (asc "kEy") (replicate 96 SPACE) (asc "y")).
    + vm_compute. reflexivity.
    + change (asc "y") with [121].
      apply Forall_cons_2; [unfold is_scalar; lia|constructor].
    + vm_compute. reflexivity.
    + vm_compute. lia.
  - destruct (main_hide (asc "kEy") (replicate 81 SPACE ++ [ZWS_0]) (asc "y"))
      as [path stego| |e] eqn:H.
    + exact (proj2 (main_hide_capacity (asc "kEy") (replicate 81 SPACE ++ [ZWS_0])
                      (asc "y")) path stego H).
    + vm_compute in H. discriminate H.
    + vm_compute in H. discriminate H.
Defined.










(** X20. A text in which no space is followed by a marker holds no hidden
    data: under a valid key [extract] ends with the bad-format
    [ValueError], whatever the text. *)
Theorem main_extract_nothing_hidden (key data : list Z) :
  Utils.validate_key key = true ->
  ~ has_marked_space data ->
  main_extract key data = Some (Raised (ValueError BadFormat)).
Proof.
  intros Hkey Hno. apply scan_nil_iff in Hno.
  unfold main_extract. rewrite Hkey. cbn [negb].
  rewrite extract_scan, Hno. reflexivity.
Qed.

Lemma main_extract_nothing_hidden_witness :
  main_extract (asc "key") (asc "X Y Z") = Some (Raised (ValueError BadFormat)).
Proof.
  apply (main_extract_nothing_hidden (asc "key") (asc "X Y Z")).
  - vm_compute. reflexivity.
  - apply scan_nil_iff. vm_compute. reflexivity.
Defined.

(** ** Key preparation and the remaining edges *)



(** X22. The empty secret: hiding it returns the carrier as it is, and in
    a carrier without a space it is the only secret that can be hidden. *)
Theorem hide_text_in_container_empty (secret carrier : list Z) :
  hide_text_in_container [] carrier = Ok carrier /\
  (SPACE ∉ carrier ->
     (returns (hide_text_in_container secret carrier) <-> secret = [])).
Proof.
  split.
  - rewrite hide_returns by (cbn [length]; lia). now rewrite embed_nil.
  - intros Hno. pose proof (count_absent _ _ Hno) as Hc. split.
    + intros [out Hout]. destruct secret as [|b secret]; [reflexivity|].
      rewrite hide_raises in Hout by (rewrite Hc; cbn [length]; lia).
      discriminate.
    + intros ->. eexists. apply hide_returns. cbn [length]. lia.
Qed.

Lemma hide_text_in_container_empty_witness :
  returns (hide_text_in_container [] (asc "no_spaces_here")).
Proof.
  apply (hide_text_in_container_empty [] (asc "no_spaces_here")); [|reflexivity].
  vm_compute. intros H.
  repeat (apply elem_of_cons in H as [H|H]; [discriminate|]).
  now apply not_elem_of_nil in H.
Defined.

(** X23. [binary_to_text] returns a text only for input that starts with
    the magic: a string of binary digits it accepts has at least 32 digits,
    the first 32 being those of [b"ZWST"]. *)
Theorem binary_to_text_needs_magic (binary text : list Z) :
  Forall is_bit binary ->
  binary_to_text binary = Ok text ->
  (32 <= length binary)%nat /\ take 32 binary = _bytes_to_bits MAGIC.
Proof.
  intros Hbits. unfold binary_to_text.
  rewrite slice_from_0. change (Z.to_nat HEADER_BITS) with 64%nat.
  destruct (_bits_to_bytes (take 64 binary)) as [header|e] eqn:Hh;
    [|rewrite bind_Raise; discriminate].
  rewrite bind_Ok, slice_from_0. change (Z.to_nat 4) with 4%nat.
  case_decide as Hm; [discriminate|]. intros _.
  destruct (decide (length (take 64 binary) `mod` 8 = 0)%nat) as [Hmod|Hmod].
  2:{ unfold _bits_to_bytes in Hh. rewrite decide_True in Hh by assumption.
      discriminate. }
  destruct (bits_to_bytes_bits (take 64 binary)) as (header' & Hh' & _ & Hlen & Hback);
    [now apply Forall_take|assumption|].
  rewrite Hh in Hh'. injection Hh' as <-.
  assert (H32 : take 32 (take 64 binary) = _bytes_to_bits MAGIC).
  { rewrite <- Hback. change 32%nat with (8 * 4)%nat.
    now rewrite take_bytes_to_bits, Hm. }
  rewrite take_take in H32. change (32 `min` 64)%nat with 32%nat in H32.
  split; [|exact H32].
  apply (f_equal length) in H32. rewrite length_take in H32.
  change (length (_bytes_to_bits MAGIC)) with 32%nat in H32. lia.
Qed.

Lemma binary_to_text_needs_magic_witness :
  (32 <= length (_bytes_to_bits MAGIC))%nat /\
  take 32 (_bytes_to_bits MAGIC) = _bytes_to_bits MAGIC.
Proof.
  apply (binary_to_text_needs_magic (_bytes_to_bits MAGIC) []).
  - apply bytes_to_bits_bits.
  - vm_compute. reflexivity.
Defined.
